(** * hey_plot: live plot of streaming CSV

    A shallow embedding of [hey_plot.py]: the two producers
    ([stream_lines_from_stdin], [tail_file]), the hand-off queue, the render
    callback [update] and the start-up sequence of [main], together with the
    pieces of the Python runtime they rest on ([str.strip], [str.split],
    [csv.reader] with the default dialect, [float], [min], [max], binary64
    arithmetic, [readline] on a text file and the checks of [set_xlim] and
    [set_ylim]).

    Text is modelled as [string] whose characters are code points below 256;
    floats are IEEE binary64 values ([spec_float] at precision 53). *)

From Stdlib Require Import ZArith Ascii String List Bool Lia.
From Stdlib Require Import Floats.SpecFloat.
From stdpp Require Import gmap strings list fin_maps.

Local Open Scope string_scope.

(** ** Python strings *)

Module PyStr.

(** [str.isspace] on the code points below 256. *)
Definition is_space (c : ascii) : bool :=
  let n := nat_of_ascii c in
  ((9 <=? n) && (n <=? 13) || (28 <=? n) && (n <=? 32)
   || (n =? 133) || (n =? 160))%nat.

Fixpoint lstrip (s : string) : string :=
  match s with
  | EmptyString => EmptyString
  | String c s' => if is_space c then lstrip s' else s
  end.

Fixpoint rstrip (s : string) : string :=
  match s with
  | EmptyString => EmptyString
  | String c s' =>
      match rstrip s' with
      | EmptyString => if is_space c then EmptyString else String c EmptyString
      | r => String c r
      end
  end.

(** [s.strip()] *)
Definition strip (s : string) : string := rstrip (lstrip s).

Definition comma : ascii := ascii_of_nat 44.

(** [s.split(",")]: one token more than there are commas. *)
Fixpoint split_comma (s : string) : list string :=
  match s with
  | EmptyString => [EmptyString]
  | String c s' =>
      if Ascii.eqb c comma then EmptyString :: split_comma s'
      else match split_comma s' with
           | t :: ts => String c t :: ts
           | [] => [String c EmptyString]
           end
  end.

(** Truth value of a string: [not line] is [is_empty line]. *)
Definition is_empty (s : string) : bool :=
  match s with EmptyString => true | _ => false end.

(** [str(x)] for an optional string, as an f-string prints it. *)
Definition str_of_opt (o : option string) : string :=
  match o with Some s => s | None => "None" end.

End PyStr.

(** ** [csv.reader] over one line, default (excel) dialect

    delimiter [,], quotechar the double quote, doublequote on, no escape
    character, not strict, field limit 131072; a NUL character is an
    ordinary character (Python 3.11 and later). *)

Module Csv.

Inductive parser_state :=
| START_RECORD | START_FIELD | IN_FIELD | IN_QUOTED_FIELD
| QUOTE_IN_QUOTED_FIELD | EAT_CRNL.

Definition quotechar : ascii := ascii_of_nat 34.
Definition LF : ascii := ascii_of_nat 10.
Definition CR : ascii := ascii_of_nat 13.
Definition field_limit : N := 131072%N.

(** The reader object: the fields saved so far, the field being built
    (characters in reverse, with its length) and the automaton state. *)
Record reader := {
  fields : list string;
  field : list ascii;
  field_len : N;
  state : parser_state
}.

Definition init : reader :=
  {| fields := []; field := []; field_len := 0%N; state := START_RECORD |}.

Definition string_of_rev (l : list ascii) : string :=
  string_of_list_ascii (rev l).

Definition parse_save_field (r : reader) (st : parser_state) : reader :=
  {| fields := fields r ++ [string_of_rev (field r)];
     field := []; field_len := 0%N; state := st |}.

(** [None] is [csv.Error] (field larger than the field limit). *)
Definition parse_add_char (r : reader) (c : ascii) (st : parser_state)
  : option reader :=
  if (field_limit <=? field_len r)%N then None
  else Some {| fields := fields r; field := c :: field r;
               field_len := N.succ (field_len r); state := st |}.

Definition set_state (r : reader) (st : parser_state) : reader :=
  {| fields := fields r; field := field r; field_len := field_len r;
     state := st |}.

Definition is_nl (c : ascii) : bool := Ascii.eqb c LF || Ascii.eqb c CR.

(** [parse_process_char] on a character of the line. *)
Definition process_char (r : reader) (c : ascii) : option reader :=
  match state r with
  | START_RECORD | START_FIELD =>
      if (match state r with START_RECORD => is_nl c | _ => false end)
      then Some (set_state r EAT_CRNL)
      else if is_nl c then Some (parse_save_field r EAT_CRNL)
      else if Ascii.eqb c quotechar then Some (set_state r IN_QUOTED_FIELD)
      else if Ascii.eqb c PyStr.comma then Some (parse_save_field r START_FIELD)
      else parse_add_char r c IN_FIELD
  | IN_FIELD =>
      if is_nl c then Some (parse_save_field r EAT_CRNL)
      else if Ascii.eqb c PyStr.comma then Some (parse_save_field r START_FIELD)
      else parse_add_char r c IN_FIELD
  | IN_QUOTED_FIELD =>
      if Ascii.eqb c quotechar then Some (set_state r QUOTE_IN_QUOTED_FIELD)
      else parse_add_char r c IN_QUOTED_FIELD
  | QUOTE_IN_QUOTED_FIELD =>
      if Ascii.eqb c quotechar then parse_add_char r c IN_QUOTED_FIELD
      else if Ascii.eqb c PyStr.comma then Some (parse_save_field r START_FIELD)
      else if is_nl c then Some (parse_save_field r EAT_CRNL)
      else parse_add_char r c IN_FIELD
  | EAT_CRNL =>
      if is_nl c then Some r else None
  end.

(** [parse_process_char] on the end-of-line marker. *)
Definition process_eol (r : reader) : reader :=
  match state r with
  | START_RECORD => r
  | START_FIELD | IN_FIELD | QUOTE_IN_QUOTED_FIELD =>
      parse_save_field r START_RECORD
  | IN_QUOTED_FIELD => r
  | EAT_CRNL => set_state r START_RECORD
  end.

Fixpoint process_line (r : reader) (s : string) : option reader :=
  match s with
  | EmptyString => Some r
  | String c s' =>
      match process_char r c with
      | Some r' => process_line r' s'
      | None => None
      end
  end.

(** [next(csv.reader([line]))]: the one line is fed, then the end-of-line
    marker; a quoted field left open when the input ends is saved as it
    is.  [None] is [csv.Error]. *)
Definition read_row (line : string) : option (list string) :=
  match process_line init line with
  | None => None
  | Some r =>
      let r' := process_eol r in
      match state r' with
      | START_RECORD => Some (fields r')
      | _ => Some (fields (parse_save_field r' START_RECORD))
      end
  end.

End Csv.


(** ** Python floats: IEEE binary64 *)

Module PyFloat.

Definition prec : Z := 53.
Definition emax : Z := 1024.

Definition float := spec_float.

Definition add : float -> float -> float := SFadd prec emax.
Definition sub : float -> float -> float := SFsub prec emax.
Definition eqb : float -> float -> bool := SFeqb.
Definition ltb : float -> float -> bool := SFltb.
Definition leb : float -> float -> bool := SFleb.

Definition is_finite (x : float) : bool :=
  match x with
  | S754_zero _ | S754_finite _ _ _ => true
  | S754_infinity _ | S754_nan => false
  end.

(** The binary64 value nearest to [(-1)^neg * m * 10^e], ties to even:
    what the runtime's correctly rounded [strtod] returns. *)
Definition of_decimal (neg : bool) (m : N) (e : Z) : float :=
  match m with
  | N0 => S754_zero neg
  | Npos p =>
      match e with
      | Zneg k =>
          SFdiv prec emax (S754_finite neg p 0)
                          (S754_finite false (10 ^ k)%positive 0)
      | _ => binary_normalize prec emax
               (cond_Zopp neg (Zpos p * 10 ^ e)%Z) 0 false
      end
  end.

(** *** The grammar of [float(str)] *)

Definition is_digit (c : ascii) : bool :=
  let n := nat_of_ascii c in ((48 <=? n) && (n <=? 57))%nat.

Definition digit_val (c : ascii) : N := N_of_ascii c - 48.

Definition underscore : ascii := ascii_of_nat 95.

(** Spaces of [Py_ISSPACE]. *)
Definition is_c_space (c : ascii) : bool :=
  let n := nat_of_ascii c in ((9 <=? n) && (n <=? 13) || (n =? 32))%nat.

(** Code points from 127 on are replaced before parsing: a space for
    the white-space characters, a question mark for the others. *)
Definition to_ascii_char (c : ascii) : ascii :=
  let n := nat_of_ascii c in
  if (n <? 127)%nat then c
  else if ((n =? 133) || (n =? 160))%nat then ascii_of_nat 32
  else ascii_of_nat 63.

Fixpoint transform (s : string) : string :=
  match s with
  | EmptyString => EmptyString
  | String c s' => String (to_ascii_char c) (transform s')
  end.

Fixpoint has_underscore (s : string) : bool :=
  match s with
  | EmptyString => false
  | String c s' => Ascii.eqb c underscore || has_underscore s'
  end.

(** Underscores are dropped when each stands between two digits;
    [prev] is the character before, [None] at the start. *)
Fixpoint drop_underscores (prev : option ascii) (s : string) : option string :=
  match s with
  | EmptyString =>
      match prev with
      | Some p => if Ascii.eqb p underscore then None else Some EmptyString
      | None => Some EmptyString
      end
  | String c s' =>
      if Ascii.eqb c underscore then
        match prev with
        | Some p => if is_digit p then drop_underscores (Some c) s' else None
        | None => None
        end
      else
        let bad := match prev with
                   | Some p => Ascii.eqb p underscore && negb (is_digit c)
                   | None => false
                   end in
        if bad then None
        else match drop_underscores (Some c) s' with
             | Some r => Some (String c r)
             | None => None
             end
  end.

Fixpoint lstrip_c (s : string) : string :=
  match s with
  | EmptyString => EmptyString
  | String c s' => if is_c_space c then lstrip_c s' else s
  end.

Fixpoint rstrip_c (s : string) : string :=
  match s with
  | EmptyString => EmptyString
  | String c s' =>
      match rstrip_c s' with
      | EmptyString => if is_c_space c then EmptyString else String c EmptyString
      | r => String c r
      end
  end.

(** A run of digits: its value appended to [acc], how many there were,
    and the rest of the text. *)
Fixpoint digits (acc : N) (n : nat) (s : string) : N * nat * string :=
  match s with
  | String c s' =>
      if is_digit c then digits (10 * acc + digit_val c) (S n) s'
      else (acc, n, s)
  | EmptyString => (acc, n, s)
  end.

Definition lower (c : ascii) : ascii :=
  let n := nat_of_ascii c in
  if ((65 <=? n) && (n <=? 90))%nat then ascii_of_nat (n + 32) else c.

(** [case_insensitive_match]: [t] (in lower case) is a prefix of [s];
    the rest of [s] is returned. *)
Fixpoint match_ci (t s : string) : option string :=
  match t, s with
  | EmptyString, _ => Some s
  | String a t', String c s' =>
      if Ascii.eqb (lower c) a then match_ci t' s' else None
  | String _ _, EmptyString => None
  end.

Definition plus : ascii := ascii_of_nat 43.
Definition minus : ascii := ascii_of_nat 45.
Definition dot : ascii := ascii_of_nat 46.

(** An optional sign: whether it is a minus, and the rest. *)
Definition sign (s : string) : bool * string :=
  match s with
  | String c s' =>
      if Ascii.eqb c minus then (true, s')
      else if Ascii.eqb c plus then (false, s')
      else (false, s)
  | EmptyString => (false, s)
  end.

(** The exponent part, when it is well formed: [e], an optional sign and
    at least one digit. Otherwise nothing is consumed. *)
Definition exponent (s : string) : Z * string :=
  match s with
  | String c s' =>
      if Ascii.eqb (lower c) "e"%char then
        let '(neg, s1) := sign s' in
        let '(v, n, s2) := digits 0 0 s1 in
        match n with
        | O => (0%Z, s)
        | S _ => (cond_Zopp neg (Z.of_N v), s2)
        end
      else (0%Z, s)
  | EmptyString => (0%Z, s)
  end.

(** [strtod] on text without leading space: the value and the text left
    over; [None] when no number starts the text. *)
Definition strtod (s : string) : option (float * string) :=
  let '(neg, s0) := sign s in
  let '(ip, ni, s1) := digits 0 0 s0 in
  let '(m, nf, s2) :=
    match s1 with
    | String c s1' =>
        if Ascii.eqb c dot then
          let '(m, nf, s2) := digits ip 0 s1' in
          match ni, nf with
          | O, O => (ip, O, s1)
          | _, _ => (m, nf, s2)
          end
        else (ip, O, s1)
    | EmptyString => (ip, O, s1)
    end in
  match ni, nf with
  | O, O => None
  | _, _ =>
      let '(e, s3) := exponent s2 in
      Some (of_decimal neg m (e - Z.of_nat nf), s3)
  end.

(** [_Py_parse_inf_or_nan] *)
Definition parse_inf_or_nan (s : string) : option (float * string) :=
  let '(neg, s0) := sign s in
  match match_ci "inf" s0 with
  | Some s1 =>
      match match_ci "inity" s1 with
      | Some s2 => Some (S754_infinity neg, s2)
      | None => Some (S754_infinity neg, s1)
      end
  | None =>
      match match_ci "nan" s0 with
      | Some s1 => Some (S754_nan, s1)
      | None => None
      end
  end.

(** [float(s)] for a string; [None] is [ValueError]. *)
Definition of_string (s : string) : option float :=
  let t := transform s in
  match (if has_underscore t then drop_underscores None t else Some t) with
  | None => None
  | Some u =>
      match lstrip_c u with
      | EmptyString => None
      | v =>
          let w := rstrip_c v in
          match (match strtod w with
                 | Some r => Some r
                 | None => parse_inf_or_nan w
                 end) with
          | Some (x, EmptyString) => Some x
          | _ => None
          end
      end
  end.

(** A float literal of the source text. *)
Definition literal (s : string) : float :=
  match of_string s with Some x => x | None => S754_nan end.

End PyFloat.

(** ** Records, the queue and the producers *)

(** A record is the dict built by [{h: v for h, v in zip(header, row)}]:
    the pairs are stored in order, a later pair replacing an earlier one
    with the same key. *)
Definition make_record (header row : list string) : gmap string string :=
  foldl (fun d hv => <[hv.1 := hv.2]> d) ∅ (zip header row).

(** [Queue.put] and [Queue.get_nowait] on the unbounded FIFO queue. *)
Definition put {A} (q : list A) (r : A) : list A := q ++ [r].

Definition get_nowait {A} (q : list A) : option (A * list A) :=
  match q with
  | [] => None
  | r :: q' => Some (r, q')
  end.

Module Producer.

(** The producer thread: the header once it is known, and whether the
    thread is still running (an uncaught [csv.Error] ends it). *)
Record thread := {
  header : option (list string);
  alive : bool
}.

Definition start : thread := {| header := None; alive := true |}.

(** The header of a non-blank, stripped line. *)
Definition header_of (line : string) : list string :=
  map PyStr.strip (PyStr.split_comma line).

(** The body shared by the three read loops, from [line = raw.strip()]
    to [out_q.put(record)]. *)
Definition body (raw : string) (t : thread) (out_q : list (gmap string string))
  : thread * list (gmap string string) :=
  let line := PyStr.strip raw in
  if PyStr.is_empty line then (t, out_q)
  else
    match header t with
    | None => ({| header := Some (header_of line); alive := alive t |}, out_q)
    | Some h =>
        match Csv.read_row line with
        | None => ({| header := Some h; alive := false |}, out_q)
        | Some row =>
            if negb (length row =? length h)%nat then (t, out_q)
            else (t, put out_q (make_record h row))
        end
    end.

(** [for raw in sys.stdin: ...] over the lines the pipe delivers. *)
Fixpoint stdin_loop (lines : list string) (t : thread)
    (out_q : list (gmap string string)) : thread * list (gmap string string) :=
  match lines with
  | [] => (t, out_q)
  | raw :: rest =>
      if alive t then
        let '(t', q') := body raw t out_q in stdin_loop rest t' q'
      else (t, out_q)
  end.

Definition stream_lines_from_stdin (lines : list string)
    (out_q : list (gmap string string)) : thread * list (gmap string string) :=
  stdin_loop lines start out_q.

(** *** The tailed file

    [open(path, "r", buffering=1)] gives a text file: the bytes are
    decoded (UTF-8) and read with universal newlines. [content] is the
    decoded text of the file, one character per code point, line endings
    as they are stored. A position in the file is counted in bytes, as
    the cursor of [f] is: a character below 128 takes one byte, another
    one two. The file is one a writer appends to: the text before the
    cursor stays as it was read, and the cursor stands between two
    characters. *)

Definition width (c : ascii) : nat :=
  if (nat_of_ascii c <? 128)%nat then 1 else 2.

(** The size of the text in the file. *)
Fixpoint byte_length (s : string) : nat :=
  match s with
  | EmptyString => 0
  | String c s' => width c + byte_length s'
  end.

(** The text [readline] returns when [s] is what lies at the cursor: up
    to the first line ending, which is LF, CR or CR LF and is returned
    as one LF, or up to the end of the file when there is none. *)
Fixpoint take_line (s : string) : string :=
  match s with
  | EmptyString => EmptyString
  | String c s' =>
      if Ascii.eqb c Csv.LF || Ascii.eqb c Csv.CR then String Csv.LF EmptyString
      else String c (take_line s')
  end.

(** The bytes that read takes from the file: CR LF counts two. *)
Fixpoint line_bytes (s : string) : nat :=
  match s with
  | EmptyString => 0
  | String c s' =>
      if Ascii.eqb c Csv.LF then 1
      else if Ascii.eqb c Csv.CR then
        match s' with
        | String d _ => if Ascii.eqb d Csv.LF then 2 else 1
        | EmptyString => 1
        end
      else width c + line_bytes s'
  end.

(** The text that lies [n] bytes into the file. *)
Fixpoint drop_bytes (n : nat) (s : string) : string :=
  match s with
  | EmptyString => EmptyString
  | String c s' =>
      match n with
      | O => s
      | S _ => drop_bytes (n - width c) s'
      end
  end.

(** [f.readline()] with the cursor at [pos], and the bytes it reads. *)
Definition readline (content : string) (pos : nat) : string :=
  take_line (drop_bytes pos content).

Definition read_bytes (content : string) (pos : nat) : nat :=
  line_bytes (drop_bytes pos content).

(** A line is complete when a line feed ends it. *)
Fixpoint terminated (line : string) : bool :=
  match line with
  | EmptyString => false
  | String c EmptyString => Ascii.eqb c Csv.LF
  | String _ s' => terminated s'
  end.

Inductive phase := Replaying | Following.

(** [tail_file] between two iterations: the thread, the cursor of [f]
    (the position [f.tell()] stands for), the loop it is in and how often
    it has slept. *)
Record tailer := {
  thr : thread;
  pos : nat;
  loop : phase;
  sleeps : nat
}.

Definition opened : tailer :=
  {| thr := start; pos := 0; loop := Replaying; sleeps := 0 |}.

(** One iteration of the loop [tail_file] is in, the file holding
    [content] when it reads. *)
Definition tail_iter (content : string) (s : tailer)
    (out_q : list (gmap string string)) : tailer * list (gmap string string) :=
  if negb (alive (thr s)) then (s, out_q)
  else
    let where_ := pos s in
    let line := readline content (pos s) in
    let pos' := pos s + read_bytes content (pos s) in
    if PyStr.is_empty line then
      match loop s with
      | Replaying =>
          ({| thr := thr s; pos := pos'; loop := Following; sleeps := sleeps s |},
           out_q)
      | Following =>
          ({| thr := thr s; pos := where_; loop := Following;
              sleeps := S (sleeps s) |}, out_q)
      end
    else
      let '(t', q') := body line (thr s) out_q in
      ({| thr := t'; pos := pos'; loop := loop s; sleeps := sleeps s |}, q').

(** [tail_file] run for as many iterations as there are snapshots of the
    file, the i-th iteration reading the i-th snapshot. *)
Fixpoint tail_file (contents : list string) (s : tailer)
    (out_q : list (gmap string string)) : tailer * list (gmap string string) :=
  match contents with
  | [] => (s, out_q)
  | c :: rest => let '(s', q') := tail_iter c s out_q in tail_file rest s' q'
  end.

(** The lines (chunks) the iterations read, in order. *)
Fixpoint lines_read (contents : list string) (s : tailer)
    (out_q : list (gmap string string)) : list string :=
  match contents with
  | [] => []
  | c :: rest =>
      let '(s', q') := tail_iter c s out_q in
      (if alive (thr s) then [readline c (pos s)] else [])
        ++ lines_read rest s' q'
  end.

End Producer.

(** ** The render callback *)

Module Render.

Import PyFloat.

(** The parsed command line. *)
Record args := {
  file : option string;
  x : string;
  y : string;
  interval : Z
}.

Definition default_args : args :=
  {| file := None; x := "offset"; y := "response-time"; interval := 200 |}.

(** [try_float]: the value looked up in the record is a string or
    [None]; [float(None)] raises [TypeError], caught like [ValueError]. *)
Definition try_float (s : option string) : option float :=
  match s with
  | Some v => of_string v
  | None => None
  end.

(** [min] and [max] over a non-empty sequence whose first item is [a]:
    a later item replaces the current one only when strictly smaller
    (larger). *)
Definition min_from (a : float) (l : list float) : float :=
  foldl (fun m it => if ltb it m then it else m) a l.

Definition max_from (a : float) (l : list float) : float :=
  foldl (fun m it => if ltb m it then it else m) a l.

Definition c_1e_6 : float := Eval vm_compute in literal "1e-6".
Definition c_0_1 : float := Eval vm_compute in literal "0.1".

(** What a tick does on the rendering surface (the line and the axes):
    the calls that return, in order, and [ValueError] when a call raises
    it, which ends the tick. *)
Inductive call :=
| set_data (xs ys : list float)
| set_xlim (lo hi : float)
| set_ylim (lo hi : float)
| set_title (s : string)
| ValueError.

(** What the closure [update] owns: the three deques. *)
Record buffers := {
  xs : list float;
  ys : list float;
  status_codes : list (option string)
}.

Definition empty : buffers := {| xs := []; ys := []; status_codes := [] |}.

(** The body of the drain loop for one record taken from the queue:
    the buffers after it, and whether a point was appended. *)
Definition drain_one (a : args) (rec : gmap string string) (b : buffers)
  : buffers * bool :=
  let xv := rec !! x a in
  let yv := rec !! y a in
  let sc := rec !! "status-code" in
  match try_float xv, try_float yv with
  | Some xf, Some yf =>
      ({| xs := xs b ++ [xf]; ys := ys b ++ [yf];
          status_codes := status_codes b ++ [sc] |}, true)
  | _, _ => (b, false)
  end.

(** [while True: rec = q.get_nowait() ...] until the queue is empty. *)
Fixpoint drain (a : args) (q : list (gmap string string)) (b : buffers)
    (updated : bool) : buffers * bool :=
  match q with
  | [] => (b, updated)
  | rec :: q' =>
      let '(b', ok) := drain_one a rec b in
      drain a q' b' (ok || updated)
  end.

Definition title_of (sc : option string) : string :=
  "hey live plot â€” status " ++ PyStr.str_of_opt sc.

(** The arguments of [ax.set_xlim] and of [ax.set_ylim]. *)
Definition x_bounds (x0 : float) (xr : list float) : float * float :=
  let xmax := max_from x0 xr in
  (min_from x0 xr,
   if (1 <? length (x0 :: xr))%nat then xmax else add xmax c_1e_6).

Definition y_bounds (y0 : float) (yr : list float) : float * float :=
  let ymin := min_from y0 yr in
  let ymax := max_from y0 yr in
  if eqb ymin ymax then (sub ymin c_0_1, add ymax c_0_1) else (ymin, ymax).

(** [set_xlim] and [set_ylim] raise [ValueError] for a bound that is NaN
    or infinite, and set nothing. *)
Definition accepted (lim : float * float) : bool :=
  is_finite lim.1 && is_finite lim.2.

Definition title (b : buffers) : list call :=
  match last (status_codes b) with
  | Some sc => [set_title (title_of sc)]
  | None => []
  end.

(** The [if updated:] block. *)
Definition redraw (b : buffers) : list call :=
  set_data (xs b) (ys b)
  :: match xs b, ys b with
     | x0 :: xr, y0 :: yr =>
         let xlim := x_bounds x0 xr in
         if negb (accepted xlim) then [ValueError]
         else
           set_xlim xlim.1 xlim.2
           :: (let ylim := y_bounds y0 yr in
               if negb (accepted ylim) then [ValueError]
               else set_ylim ylim.1 ylim.2 :: title b)
     | _, _ => title b
     end.

(** [update(_frame)]: the buffers afterwards, the queue left behind and
    what was done on the surface. *)
Definition update (a : args) (q : list (gmap string string)) (b : buffers)
  : buffers * list (gmap string string) * list call :=
  let '(b', updated) := drain a q b false in
  (b', [], if updated then redraw b' else []).

(** The view window a tick sets, read off its calls. *)
Definition xlim_of (cs : list call) : option (float * float) :=
  last (omap (fun c => match c with set_xlim lo hi => Some (lo, hi) | _ => None end) cs).

Definition ylim_of (cs : list call) : option (float * float) :=
  last (omap (fun c => match c with set_ylim lo hi => Some (lo, hi) | _ => None end) cs).

End Render.

(** ** Start-up: [main] *)

Module Main.

Inductive target :=
| tail_file (path : string)
| stream_lines_from_stdin.

(** What [main] finds: the files that can be opened, and the state of
    standard input. *)
Record env := {
  fs : string -> option string;
  stdin_is_none : bool;
  stdin_is_original : bool;
  stdin_isatty : bool
}.

Inductive event :=
| print (s : string)
| thread_start (t : target)
| plot_setup
| animation (interval : Z).

(** The outcome of the start-up: what the main thread did, in order, and
    whether the producer thread, once started, died opening its file. *)
Record outcome := {
  trace : list event;
  open_failed : bool
}.

(** [if args.file:] holds for a path that is not the empty string. *)
Definition main (a : Render.args) (e : env) : outcome :=
  let running t failed :=
    {| trace := [thread_start t; plot_setup; animation (Render.interval a)];
       open_failed := failed |} in
  let from_stdin :=
    if stdin_is_none e || stdin_is_original e && stdin_isatty e then
      {| trace := [print "No input detected. Pipe CSV into stdin or pass --file <path>.";
                   print "Example: ./hey_test.sh | python hey_plot.py"];
         open_failed := false |}
    else running stream_lines_from_stdin false in
  match Render.file a with
  | Some path =>
      if PyStr.is_empty path then from_stdin
      else running (tail_file path)
                   (match fs e path with Some _ => false | None => true end)
  | None => from_stdin
  end.

Definition started (o : outcome) : bool :=
  existsb (fun ev => match ev with thread_start _ => true | _ => false end)
          (trace o).

Definition rendering (o : outcome) : bool :=
  existsb (fun ev => match ev with animation _ => true | _ => false end)
          (trace o).

Definition explained (o : outcome) : bool :=
  existsb (fun ev => match ev with print _ => true | _ => false end)
          (trace o).

End Main.

(** ** The pipeline: producer and render loop interleaved

    The two threads share the queue only. The producer thread takes a
    step when it reads a line; the render thread takes a step when it
    calls [q.get_nowait()] in the loop of [update]: with a record it runs
    the loop body, on [Empty] it leaves the loop, redraws if [updated] is
    set, and returns. A schedule is any interleaving of the two. *)

Module Pipeline.

Record world := {
  pending : list string;
  prod : Producer.thread;
  queue : list (gmap string string);
  view : Render.buffers;
  updated : bool;
  drawn : list (list Render.call)
}.

Definition boot (lines : list string) : world :=
  {| pending := lines; prod := Producer.start; queue := [];
     view := Render.empty; updated := false; drawn := [] |}.

Inductive action := Read | Pop.

Definition step (a : Render.args) (w : world) (act : action) : world :=
  match act with
  | Read =>
      match pending w with
      | raw :: rest =>
          if Producer.alive (prod w) then
            let '(t', q') := Producer.body raw (prod w) (queue w) in
            {| pending := rest; prod := t'; queue := q';
               view := view w; updated := updated w; drawn := drawn w |}
          else w
      | [] => w
      end
  | Pop =>
      match get_nowait (queue w) with
      | Some (rec, q') =>
          let '(b', ok) := Render.drain_one a rec (view w) in
          {| pending := pending w; prod := prod w; queue := q';
             view := b'; updated := ok || updated w; drawn := drawn w |}
      | None =>
          {| pending := pending w; prod := prod w; queue := [];
             view := view w; updated := false;
             drawn := drawn w
                      ++ [if updated w then Render.redraw (view w) else []] |}
      end
  end.

Definition run (a : Render.args) (sched : list action) (w : world) : world :=
  foldl (step a) w sched.

End Pipeline.

(** * Vocabulary of the statements *)

(** Position of the first and of the last occurrence of a column name. *)
Fixpoint first_index (name : string) (header : list string) : option nat :=
  match header with
  | [] => None
  | h :: hs =>
      if decide (h = name) then Some 0
      else option_map S (first_index name hs)
  end.

Fixpoint last_index (name : string) (header : list string) : option nat :=
  match header with
  | [] => None
  | h :: hs =>
      match last_index name hs with
      | Some i => Some (S i)
      | None => if decide (h = name) then Some 0 else None
      end
  end.

(** A line is blank when stripping leaves nothing. *)
Definition blank (raw : string) : Prop := PyStr.strip raw = EmptyString.


(** The point a record yields, if both columns convert. *)
Definition point_of (a : Render.args) (rec : gmap string string)
  : option (PyFloat.float * PyFloat.float * option string) :=
  match Render.try_float (rec !! Render.x a),
        Render.try_float (rec !! Render.y a) with
  | Some xf, Some yf => Some (xf, yf, rec !! "status-code")
  | _, _ => None
  end.

Definition px (p : PyFloat.float * PyFloat.float * option string)
  : PyFloat.float := p.1.1.
Definition py (p : PyFloat.float * PyFloat.float * option string)
  : PyFloat.float := p.1.2.
Definition psc (p : PyFloat.float * PyFloat.float * option string)
  : option string := p.2.

(** The buffers with the points [pts] appended in order. *)
Definition extend (b : Render.buffers)
    (pts : list (PyFloat.float * PyFloat.float * option string))
  : Render.buffers :=
  {| Render.xs := Render.xs b ++ map px pts;
     Render.ys := Render.ys b ++ map py pts;
     Render.status_codes := Render.status_codes b ++ map psc pts |}.

Definition nonempty {A} (l : list A) : bool :=
  match l with [] => false | _ => true end.

(** The value in a column converts to a finite number. *)
Definition parses_finite (o : option string) : bool :=
  match Render.try_float o with
  | Some v => PyFloat.is_finite v
  | None => false
  end.

(** The points of the source, in the order of its lines: each record the
    producer builds, filtered by the numeric test. *)
Definition source_points (a : Render.args) (lines : list string)
  : list (PyFloat.float * PyFloat.float * option string) :=
  omap (point_of a) (Producer.stream_lines_from_stdin lines []).2.

(** The records still to come from the lines not yet read. *)
Definition future (w : Pipeline.world) : list (gmap string string) :=
  (Producer.stdin_loop (Pipeline.pending w) (Pipeline.prod w) []).2.

(** What is buffered, then what is queued, then what is still to be
    read: together always the points of the source, in order. *)
Definition in_order (a : Render.args) (lines : list string)
    (w : Pipeline.world) : Prop :=
  extend (Pipeline.view w)
    (omap (point_of a) (Pipeline.queue w ++ future w)%list)
  = extend Render.empty (source_points a lines).

(** Adjacent items related by [R]. *)
Fixpoint chain {A} (R : A -> A -> bool) (l : list A) : bool :=
  match l with
  | x :: (y :: _) as l' => R x y && chain R l'
  | _ => true
  end.

(** The value of a finite float, in units of 2^-1075. *)
Definition Zval (x : spec_float) : Z :=
  match x with
  | S754_finite s m e => cond_Zopp s (Zpos m * 2 ^ (e + 1075))%Z
  | _ => 0%Z
  end.

(** Zero or finite: neither an infinity nor a NaN. *)
Definition fin (x : spec_float) : bool :=
  match x with
  | S754_zero _ | S754_finite _ _ _ => true
  | _ => false
  end.

(** Below 2^50 in magnitude (a valid mantissa is below 2^53). *)
Definition moderate (v : spec_float) : Prop :=
  match v with
  | S754_finite _ _ e => (e <= -3)%Z
  | S754_zero _ => True
  | _ => False
  end.

(** Shifting [m0] right by [j] bits gave the record [mrs]: its mantissa
    is the quotient, its two flags say where the remainder lies. *)
Definition shifted (m0 : Z) (j : Z) (mrs : shr_record) : Prop :=
  exists rem : Z,
    (m0 = shr_m mrs * 2 ^ j + rem)%Z /\ (0 <= rem < 2 ^ j)%Z
    /\ (0 <= shr_m mrs)%Z
    /\ loc_of_shr_record mrs
       = if (rem =? 0)%Z then loc_Exact
         else loc_Inexact (2 * rem ?= 2 ^ j)%Z.

(** The end of [binary_round_aux]: the rounded mantissa is brought back
    into range and the result is built. *)
Definition round_tail (s : bool) (m1 E : Z) : spec_float :=
  let '(mrs, e) := shr_fexp 53 1024 m1 E loc_Exact in
  match shr_m mrs with
  | Z0 => S754_zero s
  | Zpos m => if (e <=? 1024 - 53)%Z then S754_finite s m e
              else S754_infinity s
  | _ => S754_nan
  end.

(** No line feed or carriage return inside the line. *)
Fixpoint no_nl (s : string) : bool :=
  match s with
  | EmptyString => true
  | String c s' => negb (Csv.is_nl c) && no_nl s'
  end.

(** The records a thread has queued carry the columns of its header; with
    no header yet, it has queued nothing. *)
Definition keyed (t : Producer.thread) (q : list (gmap string string))
  : Prop :=
  match Producer.header t with
  | Some h => Forall (fun rec : gmap string string => dom rec = list_to_set h) q
  | None => q = []
  end.

(** The line endings universal newlines know: LF, CR and CR LF. *)
Definition is_eol (e : string) : Prop :=
  e = String Csv.LF EmptyString \/ e = String Csv.CR EmptyString
  \/ e = String Csv.CR (String Csv.LF EmptyString).

(** The text starts with a line feed. *)
Definition lf_first (s : string) : bool :=
  match s with
  | String c _ => Ascii.eqb c Csv.LF
  | EmptyString => false
  end.

(** A file made of complete lines: each line followed by the ending [e]. *)
Fixpoint file_with (e : string) (ls : list string) : string :=
  match ls with
  | [] => EmptyString
  | l :: ls' => l ++ e ++ file_with e ls'
  end.

(** Below 2^34 in magnitude (a valid mantissa is below 2^53). *)
Definition small_x (v : spec_float) : Prop :=
  match v with
  | S754_finite _ _ e => (e <= -19)%Z
  | S754_zero _ => True
  | _ => False
  end.

(** A line with no quote character, line feed or carriage return. *)
Fixpoint plain (s : string) : bool :=
  match s with
  | EmptyString => true
  | String c s' =>
      negb (Ascii.eqb c Csv.quotechar) && negb (Csv.is_nl c) && plain s'
  end.

(** Text with no quote character. *)
Fixpoint no_quote (s : string) : bool :=
  match s with
  | EmptyString => true
  | String c s' => negb (Ascii.eqb c Csv.quotechar) && no_quote s'
  end.

(** The tokens [ts] with [p] put before the first of them. *)
Definition glue (p : string) (ts : list string) : list string :=
  match ts with
  | t :: ts' => (p ++ t) :: ts'
  | [] => [p]
  end.

(** The reader is inside a row: a field is expected or being read. *)
Definition in_row (st : Csv.parser_state) : bool :=
  match st with
  | Csv.START_FIELD | Csv.IN_FIELD => true
  | _ => false
  end.

(** What the row will be if the line ends here. *)
Definition row_so_far (r : Csv.reader) : list string :=
  (Csv.fields r ++ [Csv.string_of_rev (Csv.field r)])%list.

(** Every character is one of the spaces [float] skips. *)
Fixpoint spaces (s : string) : bool :=
  match s with
  | EmptyString => true
  | String c s' => PyFloat.is_c_space c && spaces s'
  end.

(** *** Inputs of the examples *)

Definition nl : string := String Csv.LF EmptyString.

Definition hey_header : list string :=
  ["offset"; "response-time"; "status-code"].

Definition point_record (xv yv : string) : gmap string string :=
  make_record hey_header [xv; yv; "200"].

(** The scenario of the specification: a header, then four lines of which
    the third has a non-numeric Y value. *)
Definition scenario : list string :=
  ["offset,response-time,status-code" ++ nl; "1,0.12,200" ++ nl;
   "2,0.34,200" ++ nl; "3,bad,200" ++ nl; "4,0.50,500" ++ nl].

(** Two lines are read and drained in a first tick, a third arrives while
    the second tick is draining, the last after an idle tick. *)
Definition scenario_schedule : list Pipeline.action :=
  [Pipeline.Read; Pipeline.Read; Pipeline.Pop; Pipeline.Pop;
   Pipeline.Read; Pipeline.Pop; Pipeline.Read; Pipeline.Pop; Pipeline.Pop;
   Pipeline.Pop; Pipeline.Read; Pipeline.Pop; Pipeline.Pop].

(** The state a tailer is in once it follows a file whose header
    [a,b] it has read. *)
Definition following_ab : Producer.tailer :=
  (Producer.tail_file ["a,b" ++ nl; "a,b" ++ nl] Producer.opened []).1.

Definition no_files : Main.env :=
  {| Main.fs := fun _ => None; Main.stdin_is_none := false;
     Main.stdin_is_original := true; Main.stdin_isatty := false |}.

Definition args_missing_file : Render.args :=
  {| Render.file := Some "missing.csv"; Render.x := "offset";
     Render.y := "response-time"; Render.interval := 200 |}.

(** * Properties *)

(** ** The runtime model on sample inputs *)

Example csv_samples :
  let q := String Csv.quotechar EmptyString in
  Csv.read_row "a,,b," = Some ["a"; ""; "b"; ""]
  /\ Csv.read_row (q ++ "a,b" ++ q ++ ",c") = Some ["a,b"; "c"]
  /\ Csv.read_row (q ++ "a" ++ q ++ q ++ "b" ++ q ++ ",c")
     = Some [String "a" (q ++ "b"); "c"]
  /\ Csv.read_row (q ++ "abc") = Some ["abc"]
  /\ Csv.read_row (q ++ "a" ++ q ++ "b,c") = Some ["ab"; "c"]
  /\ Csv.read_row "," = Some [""; ""]
  /\ Csv.read_row (String "a" (String Csv.CR "b")) = None.
Proof. vm_compute. repeat split. Qed.

Example float_samples :
  PyFloat.of_string "12.5" = Some (S754_finite false 7036874417766400 (-49))
  /\ PyFloat.of_string "1e10" = Some (S754_finite false 5242880000000000 (-19))
  /\ PyFloat.of_string "0.1" = Some Render.c_0_1
  /\ PyFloat.of_string "1e23" = Some (S754_finite false 5960464477539062 24)
  /\ PyFloat.of_string "5e-324" = Some (S754_finite false 1 (-1074))
  /\ PyFloat.of_string "9007199254740993"
     = Some (S754_finite false 4503599627370496 1)
  /\ PyFloat.of_string " -1_0.2_5 " = Some (S754_finite true 5770237022568448 (-49))
  /\ PyFloat.of_string "1e999" = Some (S754_infinity false)
  /\ PyFloat.of_string "-Infinity" = Some (S754_infinity true)
  /\ PyFloat.of_string "NaN" = Some S754_nan
  /\ PyFloat.of_string "abc" = None
  /\ PyFloat.of_string "" = None
  /\ PyFloat.of_string "1_" = None
  /\ PyFloat.of_string "1e" = None
  /\ PyFloat.of_string "." = None
  /\ PyFloat.of_string "0x10" = None.
Proof. vm_compute. repeat split. Qed.

(** ** Records *)

Section RecordLookup.

Implicit Types (header row : list string) (d : gmap string string).

Lemma last_index_None name header :
  last_index name header = None -> name ∉ header.
Proof.
  induction header as [|h hs IH]; simpl; intros H.
  - apply not_elem_of_nil.
  - destruct (last_index name hs); [discriminate|].
    destruct (decide (h = name)); [discriminate|].
    rewrite not_elem_of_cons. split; [congruence | auto].
Qed.

Lemma store_absent name header row d :
  name ∉ header ->
  foldl (fun d hv => <[hv.1 := hv.2]> d) d (zip header row) !! name = d !! name.
Proof.
  revert row d. induction header as [|h hs IH]; intros row d Hn; [done|].
  destruct row as [|r rs]; [done|]. simpl.
  apply not_elem_of_cons in Hn as [Hne Hn].
  rewrite IH by done. by rewrite lookup_insert_ne.
Qed.

Lemma store_last name header row d i :
  length row = length header ->
  last_index name header = Some i ->
  foldl (fun d hv => <[hv.1 := hv.2]> d) d (zip header row) !! name = row !! i.
Proof.
  revert row d i. induction header as [|h hs IH]; intros row d i Hlen Hi;
    [discriminate|].
  destruct row as [|r rs]; [discriminate|]. simpl in *.
  destruct (last_index name hs) as [j|] eqn:Hj.
  - injection Hi as <-. simpl. apply IH; [lia | done].
  - destruct (decide (h = name)) as [->|]; [|discriminate].
    injection Hi as <-. simpl.
    rewrite store_absent by (by apply last_index_None).
    by rewrite lookup_insert_eq.
Qed.

End RecordLookup.

(** ** Strings: stripping the line first does not change the header *)

Section Strip.

Import PyStr.






Lemma lstrip_idem s : lstrip (lstrip s) = lstrip s.
Proof.
  induction s as [|c s IH]; [done|]. simpl.
  destruct (is_space c) eqn:Hc; [done|]. simpl. by rewrite Hc.
Qed.


Lemma strip_lstrip s : strip (lstrip s) = strip s.
Proof. unfold strip. by rewrite lstrip_idem. Qed.


Lemma split_comma_cons s : exists t ts, split_comma s = t :: ts.
Proof.
  destruct s as [|c s]; simpl; [eauto|].
  destruct (Ascii.eqb c comma); [eauto|].
  destruct (split_comma s); eauto.
Qed.






End Strip.

(** ** The producers *)

Section ProducerFacts.

Import Producer.
Implicit Types (t : thread) (q : list (gmap string string)).

Lemma is_empty_true s : PyStr.is_empty s = true <-> s = EmptyString.
Proof. by destruct s. Qed.

Lemma is_empty_false s : PyStr.is_empty s = false <-> s <> EmptyString.
Proof. by destruct s. Qed.

Lemma body_blank raw t q : blank raw -> body raw t q = (t, q).
Proof. unfold blank, body. by intros ->. Qed.



Lemma body_row raw t q h row :
  header t = Some h -> ~ blank raw ->
  Csv.read_row (PyStr.strip raw) = Some row ->
  body raw t q =
    (t, if decide (length row = length h) then put q (make_record h row) else q).
Proof.
  unfold blank, body. intros Hh Hnb Hrow.
  apply is_empty_false in Hnb. rewrite Hnb, Hh, Hrow.
  destruct (decide (length row = length h)) as [He|Hne].
  - by rewrite He, Nat.eqb_refl.
  - apply Nat.eqb_neq in Hne. by rewrite Hne.
Qed.

Lemma stdin_loop_blank blanks rest t q :
  Forall blank blanks ->
  stdin_loop (blanks ++ rest) t q = stdin_loop rest t q.
Proof.
  induction 1 as [|raw blanks Hb _ IH]; [done|]. simpl.
  rewrite body_blank by done. rewrite IH.
  destruct (alive t) eqn:Ha; [done|].
  destruct rest; simpl; by rewrite ?Ha.
Qed.


Lemma tail_iter_dead content (s : tailer) q :
  alive (thr s) = false -> tail_iter content s q = (s, q).
Proof. unfold tail_iter. by intros ->. Qed.

(** An iteration applies the loop body to the line it reads. *)
Lemma tail_iter_body content (s : tailer) q :
  alive (thr s) = true ->
  (thr (tail_iter content s q).1, (tail_iter content s q).2)
  = body (readline content (pos s)) (thr s) q.
Proof.
  unfold tail_iter. intros ->. simpl.
  destruct (PyStr.is_empty (readline content (pos s))) eqn:He.
  - apply is_empty_true in He. rewrite He.
    rewrite (body_blank EmptyString) by done. by destruct (loop s).
  - by destruct (body _ _ _).
Qed.

(** [tail_file] treats the lines it reads as [stream_lines_from_stdin]
    treats the lines of the pipe. *)
Lemma tail_file_as_loop contents (s : tailer) q :
  (thr (tail_file contents s q).1, (tail_file contents s q).2)
  = stdin_loop (lines_read contents s q) (thr s) q.
Proof.
  revert s q. induction contents as [|c rest IH]; intros s q; [done|].
  simpl. destruct (alive (thr s)) eqn:Ha.
  - pose proof (tail_iter_body c s q Ha) as Hb.
    destruct (tail_iter c s q) as [s' q']. simpl in *.
    rewrite Ha, <- Hb. apply IH.
  - rewrite tail_iter_dead by done. rewrite IH.
    destruct (lines_read rest s q); simpl; by rewrite ?Ha.
Qed.

End ProducerFacts.

(** C5, as amended. When a column name occurs more than once in the
    header, looking it up in a record yields the field at the last
    occurrence of the name: the dict comprehension stores the pairs in
    order and a later pair replaces an earlier one. *)
Theorem record_lookup_last_occurrence
    (header row : list string) (name : string) (i : nat) :
  length row = length header ->
  last_index name header = Some i ->
  make_record header row !! name = row !! i.
Proof. intros Hlen Hi. by apply store_last. Qed.

Lemma record_lookup_last_occurrence_witness :
  length ["1"; "2"; "3"] = length ["a"; "b"; "a"]
  /\ last_index "a" ["a"; "b"; "a"] = Some 2
  /\ make_record ["a"; "b"; "a"] ["1"; "2"; "3"] !! "a" = ["1"; "2"; "3"] !! 2.
Proof.
  split; [reflexivity|]. split; [reflexivity|].
  apply (record_lookup_last_occurrence ["a"; "b"; "a"] ["1"; "2"; "3"] "a" 2);
    reflexivity.
Defined.

(** C5, as stated, fails: with header [a,a] and row [1,2] the first
    occurrence of [a] is at position 0, yet the record holds [2]. *)
Lemma record_lookup_first_occurrence_fails :
  ~ (forall (header row : list string) (name : string) (i : nat),
        length row = length header ->
        first_index name header = Some i ->
        make_record header row !! name = row !! i).
Proof.
  intros H. specialize (H ["a"; "a"] ["1"; "2"] "a" 0 eq_refl eq_refl).
  vm_compute in H. discriminate H.
Qed.

(** The CSV reader returns a row for every line of at most 131072
    characters that holds no line feed and no carriage return. *)
Lemma process_line_total s : forall r,
  Csv.state r <> Csv.EAT_CRNL ->
  (Csv.field_len r + N.of_nat (String.length s) <= Csv.field_limit)%N ->
  no_nl s = true ->
  is_Some (Csv.process_line r s).
Proof.
  induction s as [|c s IH]; intros r Hst Hlen Hnl; [by eexists|].
  simpl in Hnl. apply andb_true_iff in Hnl as [Hc%negb_true_iff Hnl].
  simpl String.length in Hlen. simpl.
  assert (forall st, st <> Csv.EAT_CRNL ->
            is_Some (match Csv.parse_add_char r c st with
                     | Some r' => Csv.process_line r' s
                     | None => None
                     end)) as Hadd.
  { intros st Hne. unfold Csv.parse_add_char.
    destruct (N.leb_spec Csv.field_limit (Csv.field_len r)); [lia|].
    apply IH; simpl; [done|lia|done]. }
  assert (forall st, st <> Csv.EAT_CRNL ->
            is_Some (Csv.process_line (Csv.parse_save_field r st) s)) as Hsave.
  { intros st Hne. apply IH; simpl; [done|lia|done]. }
  assert (forall st, st <> Csv.EAT_CRNL ->
            is_Some (Csv.process_line (Csv.set_state r st) s)) as Hset.
  { intros st Hne. apply IH; simpl; [done|lia|done]. }
  unfold Csv.process_char. rewrite Hc.
  destruct (Csv.state r); try done;
    repeat match goal with
      | |- context [if ?b then _ else _] => destruct b
      end; auto.
Qed.

Lemma read_row_total line :
  (N.of_nat (String.length line) <= Csv.field_limit)%N -> no_nl line = true ->
  is_Some (Csv.read_row line).
Proof.
  intros Hlen Hnl. unfold Csv.read_row.
  destruct (process_line_total line Csv.init) as [r ->]; [done|done|done|].
  by destruct (Csv.state (Csv.process_eol r)); eexists.
Qed.

(** C2. Once the header is set, a non-blank line whose row the CSV reader
    returns is turned into a record and enqueued exactly when the row has
    as many fields as the header; otherwise the thread and the queue are
    left as they were. This holds for the loop over standard input and for
    an iteration of [tail_file] that reads the line. *)
Theorem arity_filter (raw : string) (h row : list string)
    (t : Producer.thread) (q : list (gmap string string)) :
  Producer.header t = Some h -> Producer.alive t = true ->
  ~ blank raw ->
  Csv.read_row (PyStr.strip raw) = Some row ->
  let q' := if decide (length row = length h)
            then (q ++ [make_record h row])%list else q in
  Producer.stdin_loop [raw] t q = (t, q')
  /\ forall content (s : Producer.tailer),
       Producer.thr s = t -> Producer.readline content (Producer.pos s) = raw ->
       Producer.thr (Producer.tail_iter content s q).1 = t
       /\ (Producer.tail_iter content s q).2 = q'.
Proof.
  intros Hh Ha Hnb Hrow q'. split.
  - simpl. rewrite Ha. by rewrite (body_row raw t q h row).
  - intros content s Ht Hl. unfold Producer.tail_iter.
    rewrite Ht, Ha, Hl. simpl.
    assert (PyStr.is_empty raw = false) as ->.
    { apply is_empty_false. intros ->. by apply Hnb. }
    by rewrite (body_row raw t q h row).
Qed.

Lemma arity_filter_witness :
  Producer.stdin_loop ["1,0.12,200" ++ nl]
    {| Producer.header := Some hey_header; Producer.alive := true |} []
  = ({| Producer.header := Some hey_header; Producer.alive := true |},
     [make_record hey_header ["1"; "0.12"; "200"]]).
Proof.
  refine (proj1 (arity_filter ("1,0.12,200" ++ nl) hey_header ["1"; "0.12"; "200"]
                   {| Producer.header := Some hey_header; Producer.alive := true |}
                   [] _ _ _ _)).
  - reflexivity.
  - reflexivity.
  - unfold blank. vm_compute. discriminate.
  - vm_compute. reflexivity.
Defined.



(** ** The render callback *)

Section RenderFacts.

Import PyFloat Render.
Implicit Types (a : args) (b : buffers) (q : list (gmap string string)).

Lemma extend_nil b : extend b [] = b.
Proof. destruct b. unfold extend. simpl. by rewrite !app_nil_r. Qed.

Lemma extend_cons b p pts :
  extend b (p :: pts)
  = extend {| xs := xs b ++ [px p]; ys := ys b ++ [py p];
              status_codes := status_codes b ++ [psc p] |} pts.
Proof. unfold extend. simpl. by rewrite <- !app_assoc. Qed.

Lemma extend_extend b p pts : extend (extend b [p]) pts = extend b (p :: pts).
Proof. unfold extend. simpl. by rewrite <- !app_assoc. Qed.

Lemma drain_one_point a rec b :
  drain_one a rec b =
    match point_of a rec with
    | Some p => (extend b [p], true)
    | None => (b, false)
    end.
Proof.
  unfold drain_one, point_of.
  destruct (try_float (rec !! x a)); [|done].
  by destruct (try_float (rec !! y a)).
Qed.

(** A drain appends the points of the queued records, in queue order. *)
Lemma drain_points a q b u :
  drain a q b u
  = (extend b (omap (point_of a) q), nonempty (omap (point_of a) q) || u).
Proof.
  revert b u. induction q as [|rec q IH]; intros b u; simpl.
  - by rewrite extend_nil.
  - rewrite drain_one_point. destruct (point_of a rec) as [p|].
    + rewrite IH, extend_extend. f_equal. apply orb_true_r.
    + by rewrite IH.
Qed.

Lemma update_points a q b :
  update a q b
  = (extend b (omap (point_of a) q), [],
     if nonempty (omap (point_of a) q)
     then redraw (extend b (omap (point_of a) q)) else []).
Proof. unfold update. rewrite drain_points. by rewrite orb_false_r. Qed.

Lemma point_of_None a rec :
  point_of a rec = None
  <-> try_float (rec !! x a) = None \/ try_float (rec !! y a) = None.
Proof.
  unfold point_of.
  destruct (try_float (rec !! x a)), (try_float (rec !! y a));
    intuition congruence.
Qed.

(** After a tick that admitted a point, no buffer is empty. *)
Lemma admitted_nonempty a q b :
  (drain a q b false).2 = true ->
  let b' := (update a q b).1.1 in
  xs b' <> [] /\ ys b' <> [] /\ status_codes b' <> [].
Proof.
  rewrite update_points, drain_points. simpl. rewrite orb_false_r.
  destruct (omap (point_of a) q) as [|p pts]; [done|]. intros _.
  repeat split; intros H; apply app_eq_nil in H as [_ H]; discriminate H.
Qed.

Lemma min_from_const v l : Forall (eq v) l -> min_from v l = v.
Proof.
  unfold min_from. induction 1 as [|w l <- _ IH]; [done|]. simpl.
  by destruct (ltb v v).
Qed.

Lemma max_from_const v l : Forall (eq v) l -> max_from v l = v.
Proof.
  unfold max_from. induction 1 as [|w l <- _ IH]; [done|]. simpl.
  by destruct (ltb v v).
Qed.

End RenderFacts.

(** C1, as amended. A drained record appends a point exactly when
    [float] accepts both the X-column and the Y-column value; [float]
    accepts the spellings of infinity and of not-a-number along with the
    finite numbers. When either value is rejected (a missing column,
    the empty string and a non-numeric string are) the buffers are left
    as they were. *)
Theorem numeric_filter (a : Render.args) (rec : gmap string string)
    (b : Render.buffers) :
  let xv := rec !! Render.x a in
  let yv := rec !! Render.y a in
  let r := Render.drain_one a rec b in
  (r.2 = true <-> is_Some (Render.try_float xv) /\ is_Some (Render.try_float yv))
  /\ (forall xf yf,
        Render.try_float xv = Some xf -> Render.try_float yv = Some yf ->
        r.1 = {| Render.xs := Render.xs b ++ [xf];
                 Render.ys := Render.ys b ++ [yf];
                 Render.status_codes :=
                   Render.status_codes b ++ [rec !! "status-code"] |})
  /\ (r.2 = false -> r.1 = b)
  /\ (forall v, v = xv \/ v = yv ->
        v = None \/ v = Some EmptyString \/ v = Some "abc" -> r = (b, false)).
Proof.
  intros xv yv r. subst r. unfold Render.drain_one. fold xv yv.
  assert (forall v, v = None \/ v = Some EmptyString \/ v = Some "abc" ->
                    Render.try_float v = None) as Hbad.
  { intros v [-> | [-> | ->]]; vm_compute; reflexivity. }
  destruct (Render.try_float xv) as [xf|] eqn:Hx;
    destruct (Render.try_float yv) as [yf|] eqn:Hy; simpl.
  - repeat split; eauto; try congruence.
    intros v [-> | ->] Hv; apply Hbad in Hv; congruence.
  - repeat split; try congruence; intros [_ [? ?]]; congruence.
  - repeat split; try congruence; intros [[? ?] _]; congruence.
  - repeat split; try congruence; intros [[? ?] _]; congruence.
Qed.

(** C1, as stated, fails: a record whose X value is [inf] is admitted,
    though [inf] is not a finite number. *)
Lemma numeric_filter_admits_infinity :
  ~ (forall (a : Render.args) (rec : gmap string string) (b : Render.buffers),
        (Render.drain_one a rec b).2 = true
        <-> parses_finite (rec !! Render.x a) = true
            /\ parses_finite (rec !! Render.y a) = true).
Proof.
  intros H.
  destruct (H Render.default_args
              (make_record ["offset"; "response-time"] ["inf"; "1"])
              Render.empty) as [Hadm _].
  destruct Hadm as [Hfin _]; [vm_compute; reflexivity|].
  vm_compute in Hfin. discriminate Hfin.
Qed.

(** C9. A tick that finds the queue empty, or drains only records that
    fail the numeric filter, leaves the buffers as they were and makes no
    call on the rendering surface (so the view window is not touched). *)
Theorem idle_tick_no_op (a : Render.args) (q : list (gmap string string))
    (b : Render.buffers) :
  Forall (fun rec => Render.try_float (rec !! Render.x a) = None
                     \/ Render.try_float (rec !! Render.y a) = None) q ->
  Render.update a q b = (b, [], []).
Proof.
  intros Hq. rewrite update_points.
  assert (omap (point_of a) q = []) as ->.
  { induction Hq as [|rec q Hrec _ IH]; [done|]. simpl.
    apply point_of_None in Hrec. by rewrite Hrec. }
  by rewrite extend_nil.
Qed.

Lemma idle_tick_no_op_witness :
  Render.update Render.default_args
    [make_record hey_header ["3"; "bad"; "200"]] Render.empty
  = (Render.empty, [], []).
Proof.
  apply (idle_tick_no_op Render.default_args
           [make_record hey_header ["3"; "bad"; "200"]] Render.empty).
  constructor; [|constructor]. right. vm_compute. reflexivity.
Defined.

(** ** The view window *)

Section Window.

Import PyFloat Render.

Lemma redraw_xlim (b : buffers) x0 xr y0 yr :
  xs b = x0 :: xr -> ys b = y0 :: yr ->
  xlim_of (redraw b)
  = if accepted (x_bounds x0 xr) then Some (x_bounds x0 xr) else None.
Proof.
  intros Hx Hy. unfold redraw. rewrite Hx, Hy. unfold xlim_of, title.
  destruct (x_bounds x0 xr) as [lo hi].
  destruct (accepted (lo, hi)); simpl; [|done].
  destruct (accepted (y_bounds y0 yr)); simpl; [|done].
  by destruct (last (status_codes b)).
Qed.

Lemma redraw_ylim (b : buffers) x0 xr y0 yr :
  xs b = x0 :: xr -> ys b = y0 :: yr ->
  ylim_of (redraw b)
  = if accepted (x_bounds x0 xr) && accepted (y_bounds y0 yr)
    then Some (y_bounds y0 yr) else None.
Proof.
  intros Hx Hy. unfold redraw. rewrite Hx, Hy. unfold ylim_of, title.
  destruct (accepted (x_bounds x0 xr)); simpl; [|done].
  destruct (y_bounds y0 yr) as [lo hi].
  destruct (accepted (lo, hi)); simpl; [|done].
  by destruct (last (status_codes b)).
Qed.

Lemma x_bounds_single v : x_bounds v [] = (v, add v c_1e_6).
Proof. reflexivity. Qed.

Lemma x_bounds_many x0 x1 xr :
  x_bounds x0 (x1 :: xr) = (min_from x0 (x1 :: xr), max_from x0 (x1 :: xr)).
Proof. reflexivity. Qed.

Lemma accepted_pair lo hi :
  is_finite lo = true -> is_finite hi = true -> accepted (lo, hi) = true.
Proof. unfold accepted. simpl. by intros -> ->. Qed.

(** A redraw over buffers that hold a point. *)
Lemma redraw_cases (b : buffers) x0 xr y0 yr :
  xs b = x0 :: xr -> ys b = y0 :: yr ->
  redraw b
  = set_data (xs b) (ys b)
    :: (if negb (accepted (x_bounds x0 xr)) then [ValueError]
        else set_xlim (x_bounds x0 xr).1 (x_bounds x0 xr).2
             :: (if negb (accepted (y_bounds y0 yr)) then [ValueError]
                 else set_ylim (y_bounds y0 yr).1 (y_bounds y0 yr).2
                      :: title b)).
Proof. intros Hx Hy. unfold redraw. by rewrite Hx, Hy. Qed.

Lemma update_redraws a q b :
  (drain a q b false).2 = true ->
  (update a q b).2 = redraw (update a q b).1.1.
Proof.
  rewrite update_points, drain_points. simpl. rewrite orb_false_r.
  by intros ->.
Qed.

(** The buffers after a tick that admitted a point, opened up. *)
Lemma admitted_cons a q b :
  (drain a q b false).2 = true ->
  exists x0 xr y0 yr,
    xs (update a q b).1.1 = x0 :: xr /\ ys (update a q b).1.1 = y0 :: yr.
Proof.
  intros H. destruct (admitted_nonempty a q b H) as (Hx & Hy & _).
  destruct (xs (update a q b).1.1) as [|x0 xr]; [done|].
  destruct (ys (update a q b).1.1) as [|y0 yr]; [done|].
  by exists x0, xr, y0, yr.
Qed.

End Window.

(** C10, as amended. On a tick that admitted a point, [set_xlim] takes a
    pair of finite bounds or raises, ending the tick with nothing set.
    The upper x bound is widened by 1e-6 only when the buffer holds a
    single point; with two or more points the x bounds are the plain
    minimum and maximum, so points that all share one finite x value give
    a zero-width x range. The y bounds, reached once the x bounds are
    set, are the minimum less 0.1 and the maximum plus 0.1 whenever the
    minimum equals the maximum. *)
Theorem x_bounds_widened_only_for_single_point
    (a : Render.args) (q : list (gmap string string)) (b : Render.buffers) :
  (Render.drain a q b false).2 = true ->
  let b' := (Render.update a q b).1.1 in
  let cs := (Render.update a q b).2 in
  (forall v, Render.xs b' = [v] ->
     PyFloat.is_finite v = true ->
     PyFloat.is_finite (PyFloat.add v Render.c_1e_6) = true ->
     Render.xlim_of cs = Some (v, PyFloat.add v Render.c_1e_6))
  /\ (forall x0 x1 xr, Render.xs b' = x0 :: x1 :: xr ->
        PyFloat.is_finite (Render.min_from x0 (x1 :: xr)) = true ->
        PyFloat.is_finite (Render.max_from x0 (x1 :: xr)) = true ->
        Render.xlim_of cs
        = Some (Render.min_from x0 (x1 :: xr), Render.max_from x0 (x1 :: xr)))
  /\ (forall v, (2 <= length (Render.xs b'))%nat -> Forall (eq v) (Render.xs b') ->
        PyFloat.is_finite v = true ->
        Render.xlim_of cs = Some (v, v))
  /\ (forall lo hi, Render.xlim_of cs = Some (lo, hi) ->
        PyFloat.is_finite lo = true /\ PyFloat.is_finite hi = true)
  /\ (Render.xlim_of cs = None ->
        cs = [Render.set_data (Render.xs b') (Render.ys b'); Render.ValueError])
  /\ (forall y0 yr, Render.ys b' = y0 :: yr ->
        PyFloat.eqb (Render.min_from y0 yr) (Render.max_from y0 yr) = true ->
        is_Some (Render.xlim_of cs) ->
        let lim := (PyFloat.sub (Render.min_from y0 yr) Render.c_0_1,
                    PyFloat.add (Render.max_from y0 yr) Render.c_0_1) in
        Render.ylim_of cs = if Render.accepted lim then Some lim else None).
Proof.
  intros Hadm b' cs. subst cs. rewrite (update_redraws a q b Hadm). fold b'.
  destruct (admitted_cons a q b Hadm) as (x0 & xr & y0 & yr & Hx & Hy).
  fold b' in Hx, Hy.
  pose proof (redraw_xlim b' x0 xr y0 yr Hx Hy) as HX.
  pose proof (redraw_ylim b' x0 xr y0 yr Hx Hy) as HY.
  split; [|split; [|split; [|split; [|split]]]].
  - intros v Hv Hf1 Hf2. rewrite HX. rewrite Hx in Hv. injection Hv as -> ->.
    by rewrite x_bounds_single, accepted_pair.
  - intros x0' x1 xr' Hv Hf1 Hf2. rewrite HX. rewrite Hx in Hv.
    injection Hv as -> ->.
    by rewrite x_bounds_many, accepted_pair.
  - intros v Hlen Hall Hf. rewrite HX. rewrite Hx in Hlen, Hall.
    destruct xr as [|x1 xr]; [simpl in Hlen; lia|].
    apply Forall_cons in Hall as [<- Hall].
    rewrite x_bounds_many.
    rewrite (min_from_const v), (max_from_const v) by done.
    by rewrite accepted_pair.
  - intros lo hi. rewrite HX.
    destruct (Render.accepted (Render.x_bounds x0 xr)) eqn:Hacc; [|done].
    intros Hb.
    assert (Render.x_bounds x0 xr = (lo, hi)) as Hlim by congruence.
    rewrite Hlim in Hacc. by apply andb_true_iff in Hacc.
  - rewrite HX. unfold Render.redraw. rewrite Hx, Hy.
    destruct (Render.accepted (Render.x_bounds x0 xr)); [done|].
    by rewrite <- Hx, <- Hy.
  - intros y0' yr' Hv Heq Hset. rewrite HY. rewrite Hy in Hv.
    injection Hv as -> ->. rewrite HX in Hset.
    destruct (Render.accepted (Render.x_bounds x0 xr)); [|by destruct Hset].
    unfold Render.y_bounds. by rewrite Heq.
Qed.

Lemma x_bounds_widened_only_for_single_point_witness :
  let cs := (Render.update Render.default_args
               [point_record "7" "1"; point_record "7" "2"] Render.empty).2 in
  Render.xlim_of cs = Some (PyFloat.literal "7", PyFloat.literal "7").
Proof.
  refine (proj1 (proj2 (proj2
            (x_bounds_widened_only_for_single_point Render.default_args
               [point_record "7" "1"; point_record "7" "2"] Render.empty _)))
            (PyFloat.literal "7") _ _ _).
  - vm_compute. reflexivity.
  - vm_compute. lia.
  - vm_compute. repeat constructor.
  - vm_compute. reflexivity.
Defined.

(** C10, as stated, fails: two points that share the x value [inf] are
    admitted, [set_xlim] raises on the infinite bounds, and no x range is
    set, equal bounds or other. *)
Lemma x_bounds_not_set_for_infinite_x :
  ~ (forall (a : Render.args) (q : list (gmap string string))
            (b : Render.buffers),
        (Render.drain a q b false).2 = true ->
        forall v, (2 <= length (Render.xs (Render.update a q b).1.1))%nat ->
          Forall (eq v) (Render.xs (Render.update a q b).1.1) ->
          Render.xlim_of (Render.update a q b).2 = Some (v, v)).
Proof.
  intros H.
  specialize (H Render.default_args
                [point_record "inf" "1"; point_record "inf" "2"] Render.empty).
  specialize (H eq_refl (PyFloat.literal "inf")).
  assert (Render.xlim_of
            (Render.update Render.default_args
               [point_record "inf" "1"; point_record "inf" "2"]
               Render.empty).2 = None) as Hnone by (vm_compute; reflexivity).
  rewrite Hnone in H. discriminate H.
  - vm_compute. lia.
  - vm_compute. repeat constructor.
Qed.

(** ** End to end: order of admission *)

Section Fifo.

Import Render Pipeline.
Variable a : args.

Lemma body_appends raw t (q : list (gmap string string)) :
  Producer.body raw t q
  = ((Producer.body raw t []).1, (q ++ (Producer.body raw t []).2)%list).
Proof.
  unfold Producer.body.
  destruct (PyStr.is_empty _); [by rewrite app_nil_r|].
  destruct (Producer.header t); [|by rewrite app_nil_r].
  destruct (Csv.read_row _); [|by rewrite app_nil_r].
  destruct (negb _); [by rewrite app_nil_r|done].
Qed.

Lemma stdin_loop_appends lines t (q : list (gmap string string)) :
  (Producer.stdin_loop lines t q).2
  = (q ++ (Producer.stdin_loop lines t []).2)%list.
Proof.
  revert t q. induction lines as [|raw rest IH]; intros t q; simpl.
  - by rewrite app_nil_r.
  - destruct (Producer.alive t); [|by rewrite app_nil_r].
    rewrite (body_appends raw t q).
    destruct (Producer.body raw t []) as [t' q0]. simpl.
    rewrite IH, (IH t' q0). by rewrite app_assoc.
Qed.

Lemma extend_app b pts pts' :
  extend (extend b pts) pts' = extend b (pts ++ pts')%list.
Proof. unfold extend. simpl. by rewrite !map_app, !app_assoc. Qed.

Lemma in_order_boot lines : in_order a lines (boot lines).
Proof. done. Qed.

Lemma in_order_step lines w act :
  in_order a lines w -> in_order a lines (step a w act).
Proof.
  unfold in_order. intros <-. destruct act; simpl.
  - unfold future. destruct (pending w) as [|raw rest] eqn:Hp; [by rewrite Hp|].
    destruct (Producer.alive (prod w)) eqn:Ha; [|by rewrite Hp].
    simpl. rewrite Ha.
    rewrite (body_appends raw (prod w) (queue w)).
    destruct (Producer.body raw (prod w) []) as [t' q0]. simpl.
    rewrite (stdin_loop_appends rest t' q0). by rewrite app_assoc.
  - unfold future. destruct (queue w) as [|rec q'] eqn:Hq; simpl; [done|].
    rewrite drain_one_point.
    destruct (point_of a rec) as [p|] eqn:Hp; simpl; [|done].
    apply extend_extend.
Qed.

Lemma in_order_run lines sched w :
  in_order a lines w -> in_order a lines (run a sched w).
Proof.
  revert w. induction sched as [|act sched IH]; intros w Hw; [done|].
  apply IH. by apply in_order_step.
Qed.

Lemma chain_weaken {A} (R S : A -> A -> bool) l :
  (forall x y, R x y = true -> S x y = true) ->
  chain R l = true -> chain S l = true.
Proof.
  intros HRS. induction l as [|x [|y l] IH]; try done.
  simpl. intros [Hxy Hl]%andb_true_iff.
  apply andb_true_iff. split; [by apply HRS | by apply IH].
Qed.

Lemma chain_app_l {A} (R : A -> A -> bool) l l' :
  chain R (l ++ l')%list = true -> chain R l = true.
Proof.
  induction l as [|x [|y l] IH]; try done.
  simpl. intros [Hxy Hl]%andb_true_iff.
  apply andb_true_iff. split; [done | by apply IH].
Qed.

Lemma ltb_leb x y : PyFloat.ltb x y = true -> PyFloat.leb x y = true.
Proof.
  unfold PyFloat.ltb, PyFloat.leb, SFltb, SFleb.
  by destruct (SFcompare x y) as [[]|].
Qed.

(** As many pops as the queue holds records drain it as [drain] does. *)
Lemma pops_drain q : forall p t b u d,
  run a (replicate (length q) Pop)
    {| pending := p; prod := t; queue := q; view := b; updated := u;
       drawn := d |}
  = {| pending := p; prod := t; queue := []; view := (drain a q b u).1;
       updated := (drain a q b u).2; drawn := d |}.
Proof.
  induction q as [|rec q IH]; intros p t b u d; [done|].
  simpl. unfold run in IH. destruct (drain_one a rec b) as [b' ok].
  apply IH.
Qed.

(** A tick with no read in between (the pops of the queued records, then
    the pop that finds the queue empty) is [update]. *)
Lemma tick_is_update (w : world) :
  updated w = false ->
  run a (replicate (length (queue w)) Pop ++ [Pop]) w
  = {| pending := pending w; prod := prod w;
       queue := (update a (queue w) (view w)).1.2;
       view := (update a (queue w) (view w)).1.1;
       updated := false;
       drawn := drawn w ++ [(update a (queue w) (view w)).2] |}.
Proof.
  destruct w as [p t q b u d]. simpl. intros ->.
  pose proof (pops_drain q p t b false d) as Hd.
  unfold run in *. rewrite foldl_app, Hd. unfold update.
  by destruct (drain a q b false) as [b' up].
Qed.

End Fifo.

(** C6. Whatever the interleaving of producer reads and render ticks, the
    buffers hold a prefix of the points of the source in the order of its
    lines; once every line is read and the queue is drained they hold all
    of them; and when the admitted X values are strictly increasing, the
    buffered [xs] are non-decreasing. *)
Theorem fifo_order (a : Render.args) (lines : list string)
    (sched : list Pipeline.action) :
  let w := Pipeline.run a sched (Pipeline.boot lines) in
  let pts := source_points a lines in
  (exists n, Pipeline.view w = extend Render.empty (take n pts))
  /\ (Pipeline.pending w = [] -> Pipeline.queue w = [] ->
      Pipeline.view w = extend Render.empty pts)
  /\ (chain PyFloat.ltb (map px pts) = true ->
      chain PyFloat.leb (Render.xs (Pipeline.view w)) = true).
Proof.
  intros w pts.
  pose proof (in_order_run a lines sched _ (in_order_boot a lines)) as Hw.
  fold w in Hw. unfold in_order in Hw. fold pts in Hw.
  set (rest := omap (point_of a) (Pipeline.queue w ++ future w)%list) in Hw.
  injection Hw as Hx Hy Hs.
  assert (length (Render.ys (Pipeline.view w)) = length (Render.xs (Pipeline.view w))
          /\ length (Render.status_codes (Pipeline.view w))
             = length (Render.xs (Pipeline.view w))) as [Hly Hls].
  { apply (f_equal length) in Hx, Hy, Hs.
    rewrite !length_app, !length_map in Hx, Hy, Hs. lia. }
  repeat split.
  - exists (length (Render.xs (Pipeline.view w))).
    destruct (Pipeline.view w) as [vx vy vs]. unfold extend. simpl in *.
    rewrite <- !firstn_map, <- Hx, <- Hy, <- Hs.
    rewrite take_app_length.
    rewrite (take_app_length' vy), (take_app_length' vs) by done. done.
  - intros Hp Hq. subst rest. unfold future in *.
    rewrite Hp, Hq in *. simpl in *. rewrite !app_nil_r in *.
    destruct (Pipeline.view w) as [vx vy vs]. unfold extend. simpl in *.
    congruence.
  - intros Hinc. apply (chain_weaken PyFloat.ltb); [apply ltb_leb|].
    rewrite <- Hx in Hinc. by apply chain_app_l in Hinc.
Qed.

Lemma fifo_order_witness :
  chain PyFloat.ltb (map px (source_points Render.default_args scenario)) = true
  /\ chain PyFloat.leb
       (Render.xs (Pipeline.view
          (Pipeline.run Render.default_args scenario_schedule
             (Pipeline.boot scenario)))) = true.
Proof.
  assert (chain PyFloat.ltb (map px (source_points Render.default_args scenario))
          = true) as H by (vm_compute; reflexivity).
  split; [exact H|].
  exact (proj2 (proj2 (fifo_order Render.default_args scenario
                         scenario_schedule)) H).
Defined.

Example scenario_buffers :
  Pipeline.view (Pipeline.run Render.default_args scenario_schedule
                   (Pipeline.boot scenario))
  = {| Render.xs := map PyFloat.literal ["1"; "2"; "4"];
       Render.ys := map PyFloat.literal ["0.12"; "0.34"; "0.50"];
       Render.status_codes := [Some "200"; Some "200"; Some "500"] |}.
Proof. vm_compute. reflexivity. Qed.

(** ** The file tailer *)

Section Tailer.

Import Producer.

Lemma str_cons (c : ascii) (a b : string) : String c a ++ b = String c (a ++ b).
Proof. reflexivity. Qed.

Lemma str_nil (b : string) : EmptyString ++ b = b.
Proof. reflexivity. Qed.

Lemma str_app_nil_r (a : string) : a ++ EmptyString = a.
Proof. induction a as [|c a IH]; [done|]. by rewrite str_cons, IH. Qed.

Lemma str_length_app (a b : string) :
  String.length (a ++ b) = String.length a + String.length b.
Proof.
  induction a as [|c a IH]; [done|]. rewrite str_cons. simpl. by rewrite IH.
Qed.

Lemma str_app_assoc (a b c : string) : (a ++ b) ++ c = a ++ b ++ c.
Proof.
  induction a as [|x a IH]; [done|]. by rewrite !str_cons, IH.
Qed.

Lemma take_line_empty s : take_line s = EmptyString <-> s = EmptyString.
Proof.
  destruct s as [|c s]; [done|]. simpl.
  by destruct (Ascii.eqb c Csv.LF || Ascii.eqb c Csv.CR).
Qed.

(** A read returns nothing exactly when the cursor is at the end. *)
Lemma readline_empty content n :
  readline content n = EmptyString <-> drop_bytes n content = EmptyString.
Proof. apply take_line_empty. Qed.

Lemma width_pos (c : ascii) : 1 <= width c.
Proof. unfold width. destruct (_ <? _)%nat; lia. Qed.

(** A read that returns text takes at least one byte. *)
Lemma line_bytes_pos (t : string) : t <> EmptyString -> 0 < line_bytes t.
Proof.
  destruct t as [|c t]; [done|]. intros _. simpl.
  pose proof (width_pos c).
  destruct (Ascii.eqb c Csv.LF); [lia|].
  destruct (Ascii.eqb c Csv.CR); [|lia].
  destruct t as [|d t]; [lia|]. destruct (Ascii.eqb d Csv.LF); lia.
Qed.

Lemma byte_length_app (a b : string) :
  byte_length (a ++ b) = byte_length a + byte_length b.
Proof.
  induction a as [|c a IH]; [done|]. rewrite str_cons. simpl. rewrite IH. lia.
Qed.

(** The cursor left after the text [pre] is at what follows it. *)
Lemma drop_bytes_app (pre rest : string) :
  drop_bytes (byte_length pre) (pre ++ rest) = rest.
Proof.
  induction pre as [|c pre IH]; [by destruct rest|].
  rewrite str_cons. simpl. pose proof (width_pos c).
  destruct (width c + byte_length pre) as [|n] eqn:Hn; [lia|].
  rewrite <- Hn. replace (width c + byte_length pre - width c)
    with (byte_length pre) by lia.
  exact IH.
Qed.

Lemma drop_bytes_all (content : string) :
  drop_bytes (byte_length content) content = EmptyString.
Proof.
  rewrite <- (str_app_nil_r content) at 2. apply drop_bytes_app.
Qed.

(** A read that finds no line ending takes all the text there is. *)
Lemma line_bytes_unterminated (t : string) :
  terminated (take_line t) = false -> line_bytes t = byte_length t.
Proof.
  induction t as [|c t IH]; [done|]. simpl.
  destruct (Ascii.eqb c Csv.LF) eqn:Hlf; simpl; [discriminate|].
  destruct (Ascii.eqb c Csv.CR) eqn:Hcr; simpl; [discriminate|].
  destruct (take_line t) as [|d l] eqn:Ht.
  - intros _. by rewrite IH.
  - intros H. by rewrite IH.
Qed.

End Tailer.

(** C4, as amended. In the following loop, an iteration that finds no
    character at the cursor sleeps and leaves the cursor, the thread and
    the queue as they were; an iteration that finds any text moves the
    cursor forward by the bytes [readline] took (up to and including the
    next line ending, or up to the end of the file when the last line is
    not yet terminated) and handles that text as a line. With the cursor
    where earlier reads left it, a read that returns an unterminated
    line leaves the cursor at the end of the file. *)
Theorem following_cursor (content : string) (s : Producer.tailer)
    (q : list (gmap string string)) :
  Producer.loop s = Producer.Following ->
  Producer.alive (Producer.thr s) = true ->
  let line := Producer.readline content (Producer.pos s) in
  let r := Producer.tail_iter content s q in
  (line = EmptyString ->
     r = ({| Producer.thr := Producer.thr s; Producer.pos := Producer.pos s;
             Producer.loop := Producer.Following;
             Producer.sleeps := S (Producer.sleeps s) |}, q))
  /\ (line <> EmptyString ->
        Producer.pos r.1
        = Producer.pos s + Producer.read_bytes content (Producer.pos s)
        /\ Producer.pos s < Producer.pos r.1
        /\ Producer.sleeps r.1 = Producer.sleeps s
        /\ (Producer.thr r.1, r.2) = Producer.body line (Producer.thr s) q)
  /\ (forall pre rest,
        content = pre ++ rest -> Producer.pos s = Producer.byte_length pre ->
        line = Producer.take_line rest
        /\ (Producer.terminated line = false ->
            Producer.pos r.1 = Producer.byte_length content)).
Proof.
  intros Hl Ha line r. subst r. unfold Producer.tail_iter.
  rewrite Ha, Hl. simpl. fold line. split; [|split].
  - by intros ->.
  - intros Hne. pose proof Hne as He. apply is_empty_false in He. rewrite He.
    assert (0 < Producer.read_bytes content (Producer.pos s)) as Hpos.
    { apply line_bytes_pos. intros H. apply Hne. by apply readline_empty. }
    destruct (Producer.body line (Producer.thr s) q). simpl.
    repeat split; lia.
  - intros pre rest -> Hpos.
    assert (line = Producer.take_line rest) as Hline.
    { subst line. unfold Producer.readline. by rewrite Hpos, drop_bytes_app. }
    split; [done|]. intros Hterm.
    assert (Producer.read_bytes (pre ++ rest) (Producer.pos s)
            = Producer.byte_length rest) as Hn.
    { unfold Producer.read_bytes. rewrite Hpos, drop_bytes_app.
      apply line_bytes_unterminated. by rewrite <- Hline. }
    rewrite byte_length_app, <- Hpos.
    destruct (PyStr.is_empty line) eqn:He.
    + simpl. apply is_empty_true in He. rewrite He in Hline.
      symmetry in Hline. apply (proj1 (take_line_empty rest)) in Hline.
      subst rest.
      simpl. lia.
    + destruct (Producer.body line (Producer.thr s) q). simpl. lia.
Qed.

Lemma following_cursor_witness :
  Producer.pos (Producer.tail_iter ("a,b" ++ nl ++ "1,2") following_ab []).1
  = Producer.byte_length ("a,b" ++ nl ++ "1,2").
Proof.
  refine (proj2 (proj2 (proj2 (following_cursor ("a,b" ++ nl ++ "1,2")
                                 following_ab [] _ _))
                   ("a,b" ++ nl) "1,2" _ _) _).
  - reflexivity.
  - reflexivity.
  - reflexivity.
  - reflexivity.
  - reflexivity.
Defined.

(** C4, as stated, fails: the file holds the header and the unterminated
    text [1,2]; the following loop reads it, moves the cursor to the end
    of the file and enqueues the record built from it. *)
Lemma following_reads_partial_line :
  ~ (forall (content : string) (s : Producer.tailer)
            (q : list (gmap string string)),
        Producer.loop s = Producer.Following ->
        Producer.alive (Producer.thr s) = true ->
        Producer.terminated (Producer.readline content (Producer.pos s)) = false ->
        Producer.pos (Producer.tail_iter content s q).1 = Producer.pos s
        /\ (Producer.tail_iter content s q).2 = q).
Proof.
  intros H.
  destruct (H ("a,b" ++ nl ++ "1,2") following_ab [] eq_refl eq_refl eq_refl)
    as [Hpos _].
  vm_compute in Hpos. discriminate Hpos.
Qed.

Example partial_line_enqueued :
  (Producer.tail_iter ("a,b" ++ nl ++ "1,2") following_ab []).2
  = [make_record ["a"; "b"] ["1"; "2"]].
Proof. vm_compute. reflexivity. Qed.

(** ** Start-up *)

(** C3 on the code. With [--file missing.csv] and no such file, [main]
    starts the producer thread, which dies opening the file, prints no
    explanation, and goes on to set up the plot and run the render loop. *)
Theorem missing_file_starts_thread_and_renders :
  Main.main args_missing_file no_files
  = {| Main.trace := [Main.thread_start (Main.tail_file "missing.csv");
                      Main.plot_setup; Main.animation 200];
       Main.open_failed := true |}
  /\ Main.started (Main.main args_missing_file no_files) = true
  /\ Main.rendering (Main.main args_missing_file no_files) = true
  /\ Main.explained (Main.main args_missing_file no_files) = false.
Proof. repeat split. Qed.

(** The sibling path: with no file and a terminal on standard input,
    [main] explains and returns before any thread is started. *)
Lemma no_input_aborts (a : Render.args) (e : Main.env) :
  Render.file a = None \/ Render.file a = Some EmptyString ->
  Main.stdin_is_none e || Main.stdin_is_original e && Main.stdin_isatty e = true ->
  Main.started (Main.main a e) = false
  /\ Main.rendering (Main.main a e) = false
  /\ Main.explained (Main.main a e) = true.
Proof. unfold Main.main. intros [-> | ->] ->; repeat split. Qed.

(** ** Minimum and maximum as [min] and [max] compute them *)

Section MinMax.

Import PyFloat Render.

Ltac cases_compare :=
  repeat match goal with
    | |- context [Pos.compare_cont Eq ?p ?q] =>
        change (Pos.compare_cont Eq p q) with (Pos.compare p q)
    end;
  repeat match goal with
    | |- context [Z.compare ?x ?y] => destruct (Z.compare_spec x y)
    | |- context [Pos.compare ?x ?y] => destruct (Pos.compare_spec x y)
    end; simpl; try done; try (exfalso; lia).

(** [<] on floats is transitive (no float is below or above a NaN). *)
Lemma ltb_trans x y z : ltb x y = true -> ltb y z = true -> ltb x z = true.
Proof.
  unfold ltb, SFltb.
  destruct x as [sx|sx| |sx mx ex], y as [sy|sy| |sy my ey],
           z as [sz|sz| |sz mz ez]; simpl; try done;
    repeat match goal with s : bool |- _ => destruct s end;
    simpl; try done; cases_compare.
Qed.

Lemma min_from_step y0 l y :
  min_from y0 (l ++ [y])
  = if ltb y (min_from y0 l) then y else min_from y0 l.
Proof. unfold min_from. by rewrite foldl_snoc. Qed.

Lemma max_from_step y0 l y :
  max_from y0 (l ++ [y])
  = if ltb (max_from y0 l) y then y else max_from y0 l.
Proof. unfold max_from. by rewrite foldl_snoc. Qed.

Lemma ltb_irrefl x : ltb x x = false.
Proof.
  unfold ltb, SFltb. destruct x as [s|s| |s m e]; simpl; try done;
    destruct s; try done; cases_compare.
Qed.

Lemma elem_of_snoc (z y0 : float) l y :
  z ∈ y0 :: (l ++ [y])%list <-> z ∈ y0 :: l \/ z = y.
Proof.
  rewrite !elem_of_cons, elem_of_app, list_elem_of_singleton. tauto.
Qed.

(** The result of [min] is an item, and no item is below it. *)
Lemma min_from_least y0 l :
  min_from y0 l ∈ y0 :: l
  /\ forall y, y ∈ y0 :: l -> ltb y (min_from y0 l) = false.
Proof.
  induction l as [|y l [Hin Hle]] using rev_ind.
  - split; [apply list_elem_of_here|].
    intros y ->%list_elem_of_singleton. apply ltb_irrefl.
  - rewrite min_from_step. destruct (ltb y (min_from y0 l)) eqn:Hy.
    + split; [apply elem_of_snoc; by right|]. intros z Hz.
      apply elem_of_snoc in Hz as [Hz'| ->].
      * destruct (ltb z y) eqn:Hzy; [|done].
        rewrite <- (Hle z Hz'). symmetry. by apply (ltb_trans z y).
      * apply ltb_irrefl.
    + split; [apply elem_of_snoc; by left|]. intros z Hz.
      apply elem_of_snoc in Hz as [Hz'| ->]; auto.
Qed.

(** The result of [max] is an item, and no item is above it. *)
Lemma max_from_greatest y0 l :
  max_from y0 l ∈ y0 :: l
  /\ forall y, y ∈ y0 :: l -> ltb (max_from y0 l) y = false.
Proof.
  induction l as [|y l [Hin Hle]] using rev_ind.
  - split; [apply list_elem_of_here|].
    intros y ->%list_elem_of_singleton. apply ltb_irrefl.
  - rewrite max_from_step. destruct (ltb (max_from y0 l) y) eqn:Hy.
    + split; [apply elem_of_snoc; by right|]. intros z Hz.
      apply elem_of_snoc in Hz as [Hz'| ->].
      * destruct (ltb y z) eqn:Hzy; [|done].
        rewrite <- (Hle z Hz'). symmetry. by apply (ltb_trans _ y).
      * apply ltb_irrefl.
    + split; [apply elem_of_snoc; by left|]. intros z Hz.
      apply elem_of_snoc in Hz as [Hz'| ->]; auto.
Qed.

End MinMax.

(** ** Binary64 rounding: widening by 0.1 *)

Section Rounding.

Local Open Scope Z_scope.

Abbreviation prec := 53%Z.
Abbreviation emax := 1024%Z.

Lemma digits2_pos_bounds p :
  2 ^ (Zpos (digits2_pos p) - 1) <= Zpos p < 2 ^ Zpos (digits2_pos p).
Proof.
  induction p as [p IH|p IH|]; simpl digits2_pos.
  - rewrite Pos2Z.inj_succ.
    replace (Z.succ (Zpos (digits2_pos p)) - 1) with (Z.succ (Zpos (digits2_pos p) - 1)) by lia.
    rewrite !Z.pow_succ_r by lia. lia.
  - rewrite Pos2Z.inj_succ.
    replace (Z.succ (Zpos (digits2_pos p)) - 1) with (Z.succ (Zpos (digits2_pos p) - 1)) by lia.
    rewrite !Z.pow_succ_r by lia. lia.
  - simpl. lia.
Qed.

Lemma digits2_pos_le p k : Zpos p < 2 ^ k -> Zpos (digits2_pos p) <= k.
Proof.
  intros H. destruct (digits2_pos_bounds p) as [Hlo _].
  destruct (Z.le_gt_cases (Zpos (digits2_pos p)) k) as [|Hgt]; [done|].
  assert (2 ^ k <= 2 ^ (Zpos (digits2_pos p) - 1)).
  { apply Z.pow_le_mono_r; lia. }
  lia.
Qed.

Lemma digits2_pos_ge p k : 0 <= k -> 2 ^ k <= Zpos p -> k < Zpos (digits2_pos p).
Proof.
  intros Hk H. destruct (digits2_pos_bounds p) as [_ Hhi].
  destruct (Z.lt_ge_cases k (Zpos (digits2_pos p))) as [|Hge]; [done|].
  assert (2 ^ Zpos (digits2_pos p) <= 2 ^ k).
  { apply Z.pow_le_mono_r; lia. }
  lia.
Qed.

Lemma shifted_start m0 : 0 <= m0 -> shifted m0 0 (Build_shr_record m0 false false).
Proof. intros H. exists 0. simpl. repeat split; lia. Qed.

Lemma shifted_step m0 j mrs :
  0 <= j -> shifted m0 j mrs -> shifted m0 (j + 1) (shr_1 mrs).
Proof.
  intros Hj (rem & Hm & Hrem & Hpos & Hloc).
  destruct mrs as [m r s]. simpl in *.
  assert (orb r s = negb (rem =? 0)) as Hs.
  { destruct (rem =? 0), r, s; simpl in *; congruence. }
  assert (2 ^ (j + 1) = 2 * 2 ^ j) as Hp by (rewrite Z.pow_add_r; lia).
  assert (0 < 2 ^ j) by (apply Z.pow_pos_nonneg; lia).
  destruct m as [|[p|p|]|p]; try lia; simpl; rewrite Hs.
  - exists rem. simpl. rewrite Hp. repeat split; try lia.
    destruct (Z.eqb_spec rem 0); simpl; [done|].
    assert ((2 * rem ?= 2 * 2 ^ j) = Lt) as -> by (apply Z.compare_lt_iff; lia). done.
  - exists (2 ^ j + rem). simpl. rewrite Hp. repeat split; try lia.
    destruct (Z.eqb_spec (2 ^ j + rem) 0); [lia|].
    destruct (Z.eqb_spec rem 0) as [->|]; simpl.
    + assert ((2 * (2 ^ j + 0) ?= 2 * 2 ^ j) = Eq) as -> by (apply Z.compare_eq_iff; lia). done.
    + assert ((2 * (2 ^ j + rem) ?= 2 * 2 ^ j) = Gt) as -> by (apply Z.compare_gt_iff; lia). done.
  - exists rem. simpl. rewrite Hp. repeat split; try lia.
    destruct (Z.eqb_spec rem 0); simpl; [done|].
    assert ((2 * rem ?= 2 * 2 ^ j) = Lt) as -> by (apply Z.compare_lt_iff; lia). done.
  - exists (2 ^ j + rem). simpl. rewrite Hp. repeat split; try lia.
    destruct (Z.eqb_spec (2 ^ j + rem) 0); [lia|].
    destruct (Z.eqb_spec rem 0) as [->|]; simpl.
    + assert ((2 * (2 ^ j + 0) ?= 2 * 2 ^ j) = Eq) as -> by (apply Z.compare_eq_iff; lia). done.
    + assert ((2 * (2 ^ j + rem) ?= 2 * 2 ^ j) = Gt) as -> by (apply Z.compare_gt_iff; lia). done.
Qed.

Lemma shifted_iter p : forall m0 j mrs,
  0 <= j -> shifted m0 j mrs -> shifted m0 (j + Zpos p) (SpecFloat.iter_pos shr_1 p mrs).
Proof.
  induction p as [p IH|p IH|]; intros m0 j mrs Hj H; simpl.
  - replace (j + Zpos p~1) with (j + 1 + Zpos p + Zpos p) by lia.
    apply IH; [lia|]. apply IH; [lia|]. by apply shifted_step.
  - replace (j + Zpos p~0) with (j + Zpos p + Zpos p) by lia.
    apply IH; [lia|]. by apply IH.
  - by apply shifted_step.
Qed.

(** [shr] from an exact start. *)
Lemma shr_exact m0 e n :
  0 <= m0 ->
  exists mrs, shr (Build_shr_record m0 false false) e n = (mrs, e + Z.max 0 n)
              /\ shifted m0 (Z.max 0 n) mrs.
Proof.
  intros H0. destruct n as [|p|p]; simpl.
  - eexists. split; [f_equal; lia|]. by apply shifted_start.
  - eexists. split; [reflexivity|].
    apply (shifted_iter p m0 0); [lia|]. by apply shifted_start.
  - eexists. split; [f_equal; lia|]. by apply shifted_start.
Qed.

(** Rounding to nearest, ties to even, is off by at most half a unit. *)
Lemma round_nearest_even_shifted m0 j mrs :
  0 <= j -> shifted m0 j mrs ->
  let m1 := round_nearest_even (shr_m mrs) (loc_of_shr_record mrs) in
  shr_m mrs <= m1 <= shr_m mrs + 1
  /\ (m1 = shr_m mrs + 1 -> 2 ^ j <= 2 * (m0 - shr_m mrs * 2 ^ j))
  /\ - 2 ^ j <= 2 * (m1 * 2 ^ j - m0) <= 2 ^ j.
Proof.
  intros Hj (rem & Hm & Hrem & Hpos & Hloc). simpl. rewrite Hloc.
  assert (0 < 2 ^ j) by (apply Z.pow_pos_nonneg; lia).
  destruct (Z.eqb_spec rem 0) as [->|Hne]; simpl.
  - repeat split; lia.
  - destruct (Z.compare_spec (2 * rem) (2 ^ j)); simpl.
    + destruct (Z.even (shr_m mrs)); repeat split; lia.
    + repeat split; lia.
    + repeat split; lia.
Qed.

Lemma binary_round_aux_tail s mx ex lx :
  binary_round_aux prec emax s mx ex lx
  = round_tail s
      (round_nearest_even (shr_m (shr_fexp prec emax mx ex lx).1)
         (loc_of_shr_record (shr_fexp prec emax mx ex lx).1))
      (shr_fexp prec emax mx ex lx).2.
Proof. unfold binary_round_aux, round_tail. by destruct (shr_fexp _ _ mx ex lx). Qed.

Lemma fexp_eq e : fexp prec emax e = Z.max (e - 53) (-1074).
Proof. reflexivity. Qed.

Lemma canonical_53 pm E :
  -1074 <= E <= 971 -> Zpos pm < 2 ^ 53 -> (-1074 < E -> 2 ^ 52 <= Zpos pm) ->
  bounded prec emax pm E = true.
Proof.
  intros HE Hhi Hlo. unfold bounded, canonical_mantissa. rewrite fexp_eq.
  apply andb_true_iff. split; [apply Z.eqb_eq|apply Z.leb_le; lia].
  assert (Zpos (digits2_pos pm) <= 53) by (by apply digits2_pos_le).
  destruct (Z.eq_dec E (-1074)) as [->|HE']; [lia|].
  assert (52 < Zpos (digits2_pos pm)) by (apply digits2_pos_ge; [lia|apply Hlo; lia]).
  lia.
Qed.

Lemma round_tail_spec s m1 E :
  -1074 <= E <= 970 -> 0 <= m1 <= 2 ^ 53 -> (-1074 < E -> 2 ^ 52 <= m1) ->
  let r := round_tail s m1 E in
  fin r = true /\ valid_binary prec emax r = true
  /\ Zval r = cond_Zopp s (m1 * 2 ^ (E + 1075)).
Proof.
  intros HE Hm Hnorm. unfold round_tail, shr_fexp. simpl shr_record_of_loc.
  destruct m1 as [|pm|pm]; [| |lia].
  - simpl Zdigits2. rewrite fexp_eq.
    destruct (Z.max (0 + E - 53) (-1074) - E) eqn:Hn; try lia; simpl;
      by destruct s.
  - simpl Zdigits2. rewrite fexp_eq.
    destruct (Z.eq_dec (Zpos pm) (2 ^ 53)) as [Heq|Hne].
    + assert (pm = 9007199254740992%positive) as -> by lia.
      change (Zpos (digits2_pos 9007199254740992)) with 54.
      replace (Z.max (54 + E - 53) (-1074) - E) with 1 by lia.
      change (shr {| shr_m := 9007199254740992; shr_r := false; shr_s := false |} E 1)
        with ({| shr_m := 4503599627370496; shr_r := false; shr_s := false |}, E + 1).
      cbv beta iota. simpl shr_m. change (1024 - 53) with 971.
      assert ((E + 1 <=? 971) = true) as -> by (apply Z.leb_le; lia).
      repeat split.
      * simpl. apply canonical_53; [lia|done|done].
      * simpl. replace (E + 1 + 1075) with (Z.succ (E + 1075)) by lia.
        rewrite Z.pow_succ_r by lia. destruct s; simpl; lia.
    + assert (Zpos (digits2_pos pm) <= 53) as Hd.
      { apply digits2_pos_le. lia. }
      assert (shr {| shr_m := Zpos pm; shr_r := false; shr_s := false |} E
                (Z.max (Zpos (digits2_pos pm) + E - 53) (-1074) - E)
              = ({| shr_m := Zpos pm; shr_r := false; shr_s := false |}, E)) as ->.
      { destruct (Z.max (Zpos (digits2_pos pm) + E - 53) (-1074) - E) eqn:Hn;
          try lia; reflexivity. }
      cbv beta iota. simpl shr_m. change (1024 - 53) with 971.
      assert ((E <=? 971) = true) as -> by (apply Z.leb_le; lia).
      repeat split. simpl. apply canonical_53; [lia|lia|done].
Qed.

(** Rounding a positive integer [mz] at exponent [e1], when the format
    asks for an exponent [E] that is not below [e1]. *)
Lemma binary_round_aux_exact s mz e1 :
  let E := fexp prec emax (Zpos (digits2_pos mz) + e1) in
  e1 <= E -> E <= 970 ->
  exists m1,
    let r := binary_round_aux prec emax s (Zpos mz) e1 loc_Exact in
    fin r = true /\ valid_binary prec emax r = true
    /\ Zval r = cond_Zopp s (m1 * 2 ^ (E + 1075))
    /\ 0 <= m1
    /\ - 2 ^ (E - e1) <= 2 * (m1 * 2 ^ (E - e1) - Zpos mz) <= 2 ^ (E - e1).
Proof.
  intros E He1 HE. rewrite binary_round_aux_tail. unfold shr_fexp.
  simpl shr_record_of_loc. simpl Zdigits2. fold E.
  destruct (shr_exact (Zpos mz) e1 (E - e1)) as (mrs & Heq & Hsh); [lia|].
  rewrite Heq. simpl fst. simpl snd.
  replace (e1 + Z.max 0 (E - e1)) with E by lia.
  replace (Z.max 0 (E - e1)) with (E - e1) in Hsh by lia.
  set (j := E - e1) in *.
  assert (0 <= j) as Hj by lia.
  destruct (round_nearest_even_shifted (Zpos mz) j mrs Hj Hsh) as (Hq & _ & Herr).
  set (m1 := round_nearest_even (shr_m mrs) (loc_of_shr_record mrs)) in *.
  destruct Hsh as (rem & Hm & Hrem & Hpos & _).
  pose proof (digits2_pos_bounds mz) as [Hlo Hhi].
  set (d := Zpos (digits2_pos mz)) in *.
  assert (0 < 2 ^ j) as Hpj by (apply Z.pow_pos_nonneg; lia).
  assert (-1074 <= E) as HEmin by (subst E; rewrite fexp_eq; lia).
  assert (d <= j + 53) as Hd by (subst j E; rewrite fexp_eq; lia).
  assert (shr_m mrs < 2 ^ 53) as Hq53.
  { assert (2 ^ d <= 2 ^ (j + 53)) as Hp by (apply Z.pow_le_mono_r; lia).
    rewrite Z.pow_add_r in Hp by lia.
    apply (Z.mul_lt_mono_pos_r (2 ^ j)); [done|]. lia. }
  assert (-1074 < E -> 2 ^ 52 <= shr_m mrs) as Hq52.
  { intros HEn. assert (d - 1 = j + 52) as Hdj by (subst j E; rewrite fexp_eq in *; lia).
    rewrite Hdj, Z.pow_add_r in Hlo by lia.
    assert (2 ^ 52 * 2 ^ j < (shr_m mrs + 1) * 2 ^ j) as Hlt by lia.
    apply Z.mul_lt_mono_pos_r in Hlt; [lia|done]. }
  destruct (round_tail_spec s m1 E) as (Hfin & Hval & Hz); [lia|lia|lia|].
  exists m1. repeat split; try done; lia.
Qed.

Lemma iter_xO_val p d : Zpos (Pos.iter xO p d) = Zpos p * 2 ^ Zpos d.
Proof.
  induction d as [|d IH] using Pos.peano_ind.
  - simpl. lia.
  - rewrite Pos.iter_succ, Pos2Z.inj_succ, Z.pow_succ_r by lia.
    rewrite Pos2Z.inj_xO, IH. lia.
Qed.

Lemma iter_xO_digits p d :
  Zpos (digits2_pos (Pos.iter xO p d)) = Zpos (digits2_pos p) + Zpos d.
Proof.
  induction d as [|d IH] using Pos.peano_ind.
  - simpl. lia.
  - rewrite Pos.iter_succ. simpl digits2_pos. lia.
Qed.

(** [binary_round]: the result is a valid finite float within half a unit
    in the last place of [p * 2^ez]. Values are in units of 2^-1075. *)
Lemma binary_round_spec s p ez :
  let E := fexp prec emax (Zpos (digits2_pos p) + ez) in
  -1075 <= ez -> E <= 970 ->
  let r := binary_round prec emax s p ez in
  fin r = true /\ valid_binary prec emax r = true
  /\ exists V, Zval r = cond_Zopp s V /\ 0 <= V
       /\ - 2 ^ (E + 1075) <= 2 * (V - Zpos p * 2 ^ (ez + 1075)) <= 2 ^ (E + 1075).
Proof.
  intros E Hez HE. unfold binary_round. fold E.
  assert (-1074 <= E) as HEmin by (subst E; rewrite fexp_eq; lia).
  assert (exists mz e1, shl_align p ez E = (mz, e1) /\ e1 = Z.min ez E
            /\ Zpos mz = Zpos p * 2 ^ (ez - e1)
            /\ Zpos (digits2_pos mz) + e1 = Zpos (digits2_pos p) + ez)
    as (mz & e1 & -> & He1 & Hmz & Hdig).
  { unfold shl_align. destruct (E - ez) as [|k|k] eqn:Hk.
    - exists p, ez. repeat split; try lia. rewrite Z.sub_diag. simpl. lia.
    - exists p, ez. repeat split; try lia. rewrite Z.sub_diag. simpl. lia.
    - exists (Pos.iter xO p k), E. repeat split; try lia.
      + rewrite iter_xO_val. f_equal. f_equal. lia.
      + rewrite iter_xO_digits. lia. }
  pose proof (binary_round_aux_exact s mz e1) as Haux. simpl in Haux.
  rewrite Hdig in Haux. fold E in Haux.
  destruct Haux as (m1 & Hfin & Hval & Hz & Hm1 & Herr); [lia|lia|].
  split; [done|]. split; [done|].
  exists (m1 * 2 ^ (E + 1075)). split; [done|].
  assert (0 < 2 ^ (e1 + 1075)) as HP by (apply Z.pow_pos_nonneg; lia).
  assert (0 < 2 ^ (E - e1)) as HQ by (apply Z.pow_pos_nonneg; lia).
  assert (2 ^ (E + 1075) = 2 ^ (E - e1) * 2 ^ (e1 + 1075)) as ->.
  { rewrite <- Z.pow_add_r by lia. f_equal. lia. }
  assert (Zpos p * 2 ^ (ez + 1075) = Zpos mz * 2 ^ (e1 + 1075)) as ->.
  { rewrite Hmz, <- Z.mul_assoc, <- Z.pow_add_r by lia. do 2 f_equal. lia. }
  set (P := 2 ^ (e1 + 1075)) in *. set (Q := 2 ^ (E - e1)) in *.
  split; [nia|]. split; nia.
Qed.

(** [binary_normalize] of an integer [n] at exponent [ez], for a value
    below 2^50. *)
Lemma binary_normalize_spec n ez :
  -1075 <= ez -> Z.abs n * 2 ^ (ez + 1075) < 2 ^ 1125 ->
  let r := binary_normalize prec emax n ez false in
  fin r = true /\ valid_binary prec emax r = true
  /\ - 2 ^ 1072 <= 2 * (Zval r - n * 2 ^ (ez + 1075)) <= 2 ^ 1072.
Proof.
  intros Hez Hb.
  assert (forall s p, Zpos p * 2 ^ (ez + 1075) < 2 ^ 1125 ->
            let r := binary_round prec emax s p ez in
            fin r = true /\ valid_binary prec emax r = true
            /\ - 2 ^ 1072
               <= 2 * (Zval r - cond_Zopp s (Zpos p) * 2 ^ (ez + 1075))
               <= 2 ^ 1072) as Hround.
  { intros s p Hp.
    pose proof (digits2_pos_bounds p) as [Hlo _].
    set (d := Zpos (digits2_pos p)) in *.
    assert (d + ez <= 50) as Hd.
    { assert (2 ^ (d - 1) * 2 ^ (ez + 1075) < 2 ^ 1125) as Hlt.
      { assert (0 < 2 ^ (ez + 1075)) by (apply Z.pow_pos_nonneg; lia). nia. }
      rewrite <- Z.pow_add_r in Hlt by lia.
      apply Z.pow_lt_mono_r_iff in Hlt; lia. }
    destruct (binary_round_spec s p ez) as (Hfin & Hval & V & HV & HV0 & Herr);
      [lia | fold d; rewrite fexp_eq; lia |].
    fold d in Herr. rewrite fexp_eq in Herr.
    split; [done|]. split; [done|]. rewrite HV.
    assert (2 ^ (Z.max (d + ez - 53) (-1074) + 1075) <= 2 ^ 1072) as Hpow.
    { apply Z.pow_le_mono_r; lia. }
    destruct s; simpl in *; lia. }
  destruct n as [|p|p]; simpl binary_normalize.
  - simpl. split; [done|]. split; [done|]. lia.
  - apply (Hround false p). simpl in Hb. lia.
  - apply (Hround true p). simpl in Hb. lia.
Qed.

(** Bounds of a canonical mantissa. *)
Lemma bounded_inv m e :
  bounded prec emax m e = true ->
  -1074 <= e <= 971 /\ Zpos m < 2 ^ 53 /\ (-1074 < e -> 2 ^ 52 <= Zpos m).
Proof.
  unfold bounded, canonical_mantissa. rewrite fexp_eq.
  intros [Hc He]%andb_true_iff. apply Z.eqb_eq in Hc. apply Z.leb_le in He.
  pose proof (digits2_pos_bounds m) as [Hlo Hhi].
  set (d := Zpos (digits2_pos m)) in *.
  split; [lia|]. split.
  - assert (2 ^ d <= 2 ^ 53) by (apply Z.pow_le_mono_r; lia). lia.
  - intros Hn. assert (d = 53) as Hd by lia. rewrite Hd in Hlo. exact Hlo.
Qed.

Lemma canonical_lt m1 e1 m2 e2 :
  bounded prec emax m1 e1 = true -> bounded prec emax m2 e2 = true ->
  e1 < e2 -> Zpos m1 * 2 ^ (e1 + 1075) < Zpos m2 * 2 ^ (e2 + 1075).
Proof.
  intros (He1 & Hm1 & _)%bounded_inv (He2 & _ & Hm2)%bounded_inv Hlt.
  specialize (Hm2 ltac:(lia)).
  assert (0 < 2 ^ (e1 + 1075)) as HP by (apply Z.pow_pos_nonneg; lia).
  assert (2 ^ (e2 + 1075) = 2 ^ (e2 - e1) * 2 ^ (e1 + 1075)) as ->.
  { rewrite <- Z.pow_add_r by lia. f_equal. lia. }
  assert (2 ^ 1 <= 2 ^ (e2 - e1)) as HQ by (apply Z.pow_le_mono_r; lia).
  change (2 ^ 1) with 2 in HQ.
  set (P := 2 ^ (e1 + 1075)) in *. set (Q := 2 ^ (e2 - e1)) in *.
  change (2 ^ 53) with (2 * 2 ^ 52) in Hm1. set (T := 2 ^ 52) in *.
  assert (0 < T) as HT by done.
  clearbody P Q T.
  assert (Zpos m1 * P < 2 * T * P) by (apply Z.mul_lt_mono_pos_r; lia).
  assert (2 * T <= Zpos m2 * Q) as HTQ.
  { apply (Z.le_trans _ (Zpos m2 * 2)); [lia|].
    apply Z.mul_le_mono_nonneg_l; lia. }
  apply (Z.mul_le_mono_nonneg_r _ _ P) in HTQ; lia.
Qed.

(** On valid finite floats, [<] is the order of the values. *)
Lemma SFltb_Zval x y :
  fin x = true -> fin y = true ->
  valid_binary prec emax x = true -> valid_binary prec emax y = true ->
  Zval x < Zval y -> SFltb x y = true.
Proof.
  unfold SFltb.
  destruct x as [sx|sx| |sx mx ex], y as [sy|sy| |sy my ey]; try done; simpl;
    intros _ _ Hx Hy Hlt.
  - assert (0 < 2 ^ (ey + 1075)).
    { apply bounded_inv in Hy. apply Z.pow_pos_nonneg; lia. }
    destruct sy; simpl in *; [nia|done].
  - assert (0 < 2 ^ (ex + 1075)).
    { apply bounded_inv in Hx. apply Z.pow_pos_nonneg; lia. }
    destruct sx; simpl in *; [done|nia].
  - assert (0 < 2 ^ (ex + 1075)).
    { apply bounded_inv in Hx. apply Z.pow_pos_nonneg; lia. }
    assert (0 < 2 ^ (ey + 1075)).
    { apply bounded_inv in Hy. apply Z.pow_pos_nonneg; lia. }
    change (Pos.compare_cont Eq mx my) with (Pos.compare mx my).
    destruct sx, sy; simpl in *; try done; try nia.
    + destruct (Z.compare_spec ex ey) as [->|Hl|Hg]; simpl.
      * destruct (Pos.compare_spec mx my); simpl; try done; subst; nia.
      * pose proof (canonical_lt mx ex my ey Hx Hy Hl). lia.
      * done.
    + destruct (Z.compare_spec ex ey) as [->|Hl|Hg]; simpl.
      * destruct (Pos.compare_spec mx my); simpl; try done; subst; nia.
      * done.
      * pose proof (canonical_lt my ey mx ex Hy Hx Hg). lia.
Qed.

Lemma shl_align_val p e e' :
  e' <= e -> Zpos (shl_align p e e').1 = Zpos p * 2 ^ (e - e').
Proof.
  intros H. unfold shl_align. destruct (e' - e) as [|d|d] eqn:Hd; simpl.
  - replace (e - e') with 0 by lia. simpl. lia.
  - lia.
  - rewrite iter_xO_val. do 2 f_equal. lia.
Qed.

(** Subtracting and adding 0.1 gives two different floats, in order, for
    every valid float below 2^50 in magnitude. *)
Lemma widening_positive v :
  valid_binary prec emax v = true -> moderate v ->
  fin (SFsub prec emax v Render.c_0_1) = true
  /\ fin (SFadd prec emax v Render.c_0_1) = true
  /\ SFltb (SFsub prec emax v Render.c_0_1) (SFadd prec emax v Render.c_0_1)
     = true.
Proof.
  intros Hv Hm. destruct v as [s|s| |s m e]; try done.
  simpl in Hv, Hm. pose proof (bounded_inv m e Hv) as (He & Hm53 & _).
  unfold SFsub, SFadd, Render.c_0_1.
  set (ez := Z.min e (-56)).
  rewrite (shl_align_val m e ez), (shl_align_val _ (-56) ez) by lia.
  simpl (cond_Zopp false _).
  set (A := cond_Zopp s (Zpos m * 2 ^ (e - ez))).
  set (B := 7205759403792794 * 2 ^ (-56 - ez)).
  set (P := 2 ^ (ez + 1075)).
  assert (0 < P) as HP by (apply Z.pow_pos_nonneg; lia).
  assert (B * P = 7205759403792794 * 2 ^ 1019) as HB.
  { unfold B, P. rewrite <- Z.mul_assoc, <- Z.pow_add_r by lia.
    do 2 f_equal. lia. }
  assert (A * P = cond_Zopp s (Zpos m * 2 ^ (e + 1075))) as HA.
  { assert (Zpos m * 2 ^ (e - ez) * P = Zpos m * 2 ^ (e + 1075)) as Ha.
    { unfold P. rewrite <- Z.mul_assoc, <- Z.pow_add_r by lia.
      do 2 f_equal. lia. }
    unfold A. destruct s; simpl; lia. }
  assert (Z.abs (A * P) <= 2 ^ 1125 - 2 ^ 1072) as HAb.
  { rewrite HA.
    assert (Zpos m * 2 ^ (e + 1075) <= (2 ^ 53 - 1) * 2 ^ 1072) as Hle.
    { assert (2 ^ (e + 1075) <= 2 ^ 1072) by (apply Z.pow_le_mono_r; lia).
      assert (0 < 2 ^ (e + 1075)) by (apply Z.pow_pos_nonneg; lia).
      apply Z.mul_le_mono_nonneg; lia. }
    change ((2 ^ 53 - 1) * 2 ^ 1072) with (2 ^ 1125 - 2 ^ 1072) in Hle.
    destruct s; simpl; lia. }
  destruct (binary_normalize_spec (A - B) ez) as (Hf1 & Hv1 & He1); [lia| |].
  { fold P. replace (Z.abs (A - B) * P) with (Z.abs ((A - B) * P))
      by (rewrite Z.abs_mul, (Z.abs_eq P); lia).
    rewrite Z.mul_sub_distr_r, HB. lia. }
  destruct (binary_normalize_spec (A + B) ez) as (Hf2 & Hv2 & He2); [lia| |].
  { fold P. replace (Z.abs (A + B) * P) with (Z.abs ((A + B) * P))
      by (rewrite Z.abs_mul, (Z.abs_eq P); lia).
    rewrite Z.mul_add_distr_r, HB. lia. }
  split; [done|]. split; [done|].
  apply SFltb_Zval; try done.
  fold P in He1, He2.
  rewrite Z.mul_sub_distr_r, HB in He1. rewrite Z.mul_add_distr_r, HB in He2.
  lia.
Qed.

End Rounding.

Lemma eqb_refl_fin v : fin v = true -> PyFloat.eqb v v = true.
Proof.
  unfold PyFloat.eqb, SFeqb. destruct v as [s|s| |s m e]; try done; simpl.
  intros _. rewrite Z.compare_refl.
  change (Pos.compare_cont Eq m m) with (Pos.compare m m).
  rewrite Pos.compare_refl. by destruct s.
Qed.

Lemma moderate_fin v : moderate v -> fin v = true.
Proof. by destruct v. Qed.

Lemma fin_is_finite v : PyFloat.is_finite v = fin v.
Proof. by destruct v. Qed.

(** What the guard [if ymin == ymax] is there for, and where it works.
    After a tick that admitted a point and set the x bounds, when the
    minimum and the maximum of the buffered y-values compare equal (all
    values equal, not NaN) the y bounds are that value minus 0.1 and plus
    0.1, both rounded to binary64: a window of positive height when the
    value is below 2^50 in magnitude. Otherwise the bounds are the
    minimum and the maximum of the buffered y-values: items of the buffer
    that no item is below, respectively above. *)
Lemma y_window (a : Render.args) (q : list (gmap string string))
    (b : Render.buffers) :
  (Render.drain a q b false).2 = true ->
  let b' := (Render.update a q b).1.1 in
  let cs := (Render.update a q b).2 in
  is_Some (Render.xlim_of cs) ->
  exists y0 yr,
    Render.ys b' = y0 :: yr
    /\ let ymin := Render.min_from y0 yr in
       let ymax := Render.max_from y0 yr in
       (forall v, Forall (eq v) (Render.ys b') ->
             valid_binary PyFloat.prec PyFloat.emax v = true -> moderate v ->
             Render.ylim_of cs
             = Some (PyFloat.sub v Render.c_0_1, PyFloat.add v Render.c_0_1)
             /\ PyFloat.ltb (PyFloat.sub v Render.c_0_1)
                  (PyFloat.add v Render.c_0_1) = true)
       /\ (PyFloat.eqb ymin ymax = false ->
             PyFloat.is_finite ymin = true -> PyFloat.is_finite ymax = true ->
             Render.ylim_of cs = Some (ymin, ymax))
       /\ ymin ∈ Render.ys b' /\ ymax ∈ Render.ys b'
       /\ (forall y, y ∈ Render.ys b' ->
             PyFloat.ltb y ymin = false /\ PyFloat.ltb ymax y = false).
Proof.
  intros Hadm b' cs. subst cs. rewrite (update_redraws a q b Hadm). fold b'.
  destruct (admitted_cons a q b Hadm) as (x0 & xr & y0 & yr & Hx & Hy).
  fold b' in Hx, Hy. intros Hset. exists y0, yr. split; [done|].
  rewrite (redraw_xlim b' x0 xr y0 yr Hx Hy) in Hset.
  rewrite (redraw_ylim b' x0 xr y0 yr Hx Hy), Hy.
  destruct (Render.accepted (Render.x_bounds x0 xr)); [|by destruct Hset].
  simpl andb.
  destruct (min_from_least y0 yr) as [Hmin Hleast].
  destruct (max_from_greatest y0 yr) as [Hmax Hgreatest].
  split; [|split; [|split; [|split]]]; auto.
  - intros v Hall Hval Hmod.
    destruct (widening_positive v Hval Hmod) as (Hf1 & Hf2 & Hlt).
    split; [|done].
    apply Forall_cons in Hall as [<- Hall].
    unfold Render.y_bounds.
    rewrite (min_from_const v), (max_from_const v) by done.
    rewrite eqb_refl_fin by (by apply moderate_fin).
    rewrite accepted_pair; [done| |]; by rewrite fin_is_finite.
  - intros Hne Hf1 Hf2. unfold Render.y_bounds. rewrite Hne.
    by rewrite accepted_pair.
Qed.

Lemma y_window_witness :
  exists lo hi,
    Render.ylim_of
      (Render.update Render.default_args
         [point_record "1" "0.5"; point_record "2" "0.5"] Render.empty).2
    = Some (lo, hi)
    /\ PyFloat.ltb lo hi = true.
Proof.
  destruct (y_window Render.default_args
              [point_record "1" "0.5"; point_record "2" "0.5"] Render.empty)
    as (y0 & yr & Hy & Hpos & _).
  - vm_compute. reflexivity.
  - vm_compute. by eexists.
  - eexists _, _. apply (Hpos (PyFloat.literal "0.5")).
    + vm_compute. repeat constructor.
    + vm_compute. reflexivity.
    + vm_compute. discriminate.
Defined.

(** C7 on the code. The guard [if ymin == ymax: ymin -= 0.1; ymax += 0.1]
    does not keep the y range from having zero height: with the single
    y-value 1e17 the guard fires, 1e17 - 0.1 and 1e17 + 0.1 both round
    back to 1e17, and [set_ylim] is called with two equal bounds. *)
Theorem y_window_zero_height :
  let v := PyFloat.literal "1e17" in
  let r := Render.update Render.default_args [point_record "1" "1e17"]
             Render.empty in
  Render.ys r.1.1 = [v]
  /\ PyFloat.eqb (Render.min_from v []) (Render.max_from v []) = true
  /\ PyFloat.sub v Render.c_0_1 = v
  /\ PyFloat.add v Render.c_0_1 = v
  /\ r.2 = [Render.set_data [PyFloat.literal "1"] [v];
            Render.set_xlim (PyFloat.literal "1")
              (PyFloat.add (PyFloat.literal "1") Render.c_1e_6);
            Render.set_ylim v v;
            Render.set_title (Render.title_of (Some "200"))]
  /\ Render.ylim_of r.2 = Some (v, v).
Proof. vm_compute. repeat split. Qed.

(** * Further properties of the code *)

(** ** Records: keys and lookup *)

Lemma last_index_absent name (header : list string) :
  name ∉ header -> last_index name header = None.
Proof.
  induction header as [|h hs IH]; [done|]. simpl.
  intros [Hne Hn]%not_elem_of_cons. rewrite IH by done.
  destruct (decide (h = name)); congruence.
Qed.

Lemma last_index_nodup name (header : list string) i :
  NoDup header -> header !! i = Some name -> last_index name header = Some i.
Proof.
  revert i. induction header as [|h hs IH]; intros i Hnd Hi; [done|].
  apply NoDup_cons in Hnd as [Hh Hnd]. destruct i as [|j]; simpl in *.
  - injection Hi as ->. rewrite last_index_absent by done.
    by destruct (decide (name = name)).
  - by rewrite (IH j).
Qed.

Lemma dom_store (header row : list string) (d : gmap string string) :
  length row = length header ->
  dom (foldl (fun d hv => <[hv.1 := hv.2]> d) d (zip header row))
  = dom d ∪ list_to_set header.
Proof.
  revert row d. induction header as [|h hs IH]; intros row d Hlen.
  - simpl. by rewrite union_empty_r_L.
  - destruct row as [|r rs]; [discriminate|]. simpl.
    rewrite IH by (simpl in Hlen; lia). rewrite dom_insert_L. set_solver.
Qed.

(** X1. With a header whose column names are all different, a record
    maps each column name to the field at the same position of the row. *)
Theorem record_lookup_by_position (header row : list string) (i : nat)
    (name : string) :
  NoDup header -> length row = length header ->
  header !! i = Some name ->
  make_record header row !! name = row !! i.
Proof.
  intros Hnd Hlen Hi. apply store_last; [done|]. by apply last_index_nodup.
Qed.

Lemma record_lookup_by_position_witness :
  make_record hey_header ["1"; "0.12"; "200"] !! "response-time" = Some "0.12".
Proof.
  apply (record_lookup_by_position hey_header ["1"; "0.12"; "200"] 1
           "response-time").
  - repeat constructor; vm_compute; set_solver.
  - reflexivity.
  - reflexivity.
Defined.

(** X2. The keys of a record are exactly the column names of the header:
    looking up any other name finds nothing, and every column name is
    found. *)
Theorem record_keys (header row : list string) :
  length row = length header ->
  dom (make_record header row) = list_to_set header
  /\ (forall name, name ∉ header -> make_record header row !! name = None)
  /\ (forall name, name ∈ header -> is_Some (make_record header row !! name)).
Proof.
  intros Hlen.
  assert (dom (make_record header row) = list_to_set header) as Hdom.
  { unfold make_record. rewrite dom_store by done.
    by rewrite dom_empty_L, union_empty_l_L. }
  split; [done|]. split; intros name Hn.
  - apply not_elem_of_dom. rewrite Hdom. by rewrite elem_of_list_to_set.
  - apply elem_of_dom. rewrite Hdom. by rewrite elem_of_list_to_set.
Qed.

Lemma record_keys_witness :
  make_record hey_header ["1"; "0.12"; "200"] !! "latency" = None.
Proof.
  refine (proj1 (proj2 (record_keys hey_header ["1"; "0.12"; "200"] _))
            "latency" _).
  - reflexivity.
  - vm_compute. set_solver.
Defined.

(** ** Producers: what reaches the queue *)

Section ProducerQueue.

Import Producer.
Implicit Types (t : thread) (q : list (gmap string string)).

(** The loop body leaves what is queued in place and adds at most one
    record behind it. *)
Lemma body_adds raw t q :
  exists new, (body raw t q).2 = (q ++ new)%list /\ (length new <= 1)%nat.
Proof.
  assert (exists new, q = (q ++ new)%list /\ (length new <= 1)%nat) as Hnone.
  { exists []. split; [by rewrite app_nil_r | simpl; lia]. }
  unfold body. destruct (PyStr.is_empty _); [done|].
  destruct (header t); [|done].
  destruct (Csv.read_row _); [|done].
  destruct (negb _); [done|].
  eexists [_]. split; [reflexivity|simpl; lia].
Qed.

Lemma stdin_loop_adds lines t q :
  exists new, (stdin_loop lines t q).2 = (q ++ new)%list
              /\ (length new <= length lines)%nat.
Proof.
  revert t q. induction lines as [|raw rest IH]; intros t q; simpl.
  - exists []. split; [by rewrite app_nil_r | simpl; lia].
  - destruct (alive t).
    2: { exists []. rewrite app_nil_r. split; [done|simpl; lia]. }
    destruct (body_adds raw t q) as (n1 & Hq1 & Hl1).
    destruct (body raw t q) as [t' q']. simpl in Hq1. subst q'.
    destruct (IH t' (q ++ n1)%list) as (n2 & -> & Hl2).
    exists (n1 ++ n2)%list. rewrite app_assoc, length_app.
    split; [done|lia].
Qed.

Lemma body_keyed raw t q : keyed t q -> keyed (body raw t q).1 (body raw t q).2.
Proof.
  unfold keyed, body. intros Hk.
  destruct (PyStr.is_empty _); [done|].
  destruct (header t) as [h|] eqn:Hh; simpl.
  - destruct (Csv.read_row _) as [row|]; simpl; [|done].
    destruct (length row =? length h)%nat eqn:Hlen; simpl; rewrite Hh; [|done].
    apply Forall_app. split; [done|]. constructor; [|done].
    apply Nat.eqb_eq in Hlen. unfold make_record.
    rewrite dom_store by done. by rewrite dom_empty_L, union_empty_l_L.
  - by subst q.
Qed.

Lemma stdin_loop_keyed lines t q :
  keyed t q -> keyed (stdin_loop lines t q).1 (stdin_loop lines t q).2.
Proof.
  revert t q. induction lines as [|raw rest IH]; intros t q Hk; [done|].
  simpl. destruct (alive t); [|done].
  pose proof (body_keyed raw t q Hk) as Hb.
  destruct (body raw t q) as [t' q']. by apply IH.
Qed.

End ProducerQueue.

(** X3. Input that holds only blank lines (or nothing) leaves the header
    unset and the queue as it was; the first line after them that is not
    blank sets the header, to the trimmed tokens of the trimmed line, and
    is itself never queued as a record. *)
Theorem blank_input_queues_nothing (blanks : list string)
    (q : list (gmap string string)) :
  Forall blank blanks ->
  Producer.stream_lines_from_stdin blanks q = (Producer.start, q)
  /\ (forall L, ~ blank L ->
        Producer.stream_lines_from_stdin (blanks ++ [L]) q
        = ({| Producer.header := Some (Producer.header_of (PyStr.strip L));
              Producer.alive := true |}, q))
  /\ (forall L, (Producer.stream_lines_from_stdin (blanks ++ [L]) q).2 = q).
Proof.
  intros Hb. unfold Producer.stream_lines_from_stdin. split; [|split].
  - rewrite <- (app_nil_r blanks). by rewrite stdin_loop_blank.
  - intros L HL. rewrite stdin_loop_blank by done. simpl.
    unfold Producer.body. unfold blank in HL.
    apply is_empty_false in HL. by rewrite HL.
  - intros L. rewrite stdin_loop_blank by done. simpl.
    unfold Producer.body. by destruct (PyStr.is_empty _).
Qed.

Lemma blank_input_queues_nothing_witness :
  Producer.stream_lines_from_stdin [nl; "   " ++ nl; " a, b " ++ nl] []
  = ({| Producer.header := Some ["a"; "b"]; Producer.alive := true |}, []).
Proof.
  refine (proj1 (proj2 (blank_input_queues_nothing [nl; "   " ++ nl] [] _))
            (" a, b " ++ nl) _).
  - repeat constructor.
  - discriminate.
Defined.

(** X4. Neither producer removes or reorders what is queued: the queue
    afterwards is the queue before followed by the new records, at most
    one per line read. *)
Theorem producer_only_appends (q : list (gmap string string)) :
  (forall lines,
      exists new, (Producer.stream_lines_from_stdin lines q).2 = (q ++ new)%list
                  /\ (length new <= length lines)%nat)
  /\ (forall contents s,
        exists new, (Producer.tail_file contents s q).2 = (q ++ new)%list
                    /\ (length new
                        <= length (Producer.lines_read contents s q))%nat).
Proof.
  split.
  - intros lines. apply stdin_loop_adds.
  - intros contents s.
    pose proof (tail_file_as_loop contents s q) as Ht.
    destruct (stdin_loop_adds (Producer.lines_read contents s q)
                (Producer.thr s) q) as (new & Hq & Hl).
    exists new. rewrite <- Ht in Hq. by split.
Qed.

(** X5. Every record either producer queues has exactly the columns of
    the header: the keys of the record are the header's names. *)
Theorem queued_records_have_header_columns :
  (forall lines h rec,
      Producer.header (Producer.stream_lines_from_stdin lines []).1 = Some h ->
      rec ∈ (Producer.stream_lines_from_stdin lines []).2 ->
      dom rec = list_to_set h)
  /\ (forall contents h rec,
        Producer.header
          (Producer.thr (Producer.tail_file contents Producer.opened []).1)
        = Some h ->
        rec ∈ (Producer.tail_file contents Producer.opened []).2 ->
        dom rec = list_to_set h).
Proof.
  assert (forall lines h rec,
            Producer.header (Producer.stdin_loop lines Producer.start []).1
            = Some h ->
            rec ∈ (Producer.stdin_loop lines Producer.start []).2 ->
            dom rec = list_to_set h) as Hloop.
  { intros lines h rec Hh Hin.
    pose proof (stdin_loop_keyed lines Producer.start [] eq_refl) as Hk.
    unfold keyed in Hk. rewrite Hh in Hk.
    by apply (proj1 (Forall_forall _ _) Hk). }
  split; [exact Hloop|].
  intros contents h rec Hh Hin.
  pose proof (tail_file_as_loop contents Producer.opened []) as Ht.
  apply (Hloop (Producer.lines_read contents Producer.opened [])).
  - change Producer.start with (Producer.thr Producer.opened).
    by rewrite <- Ht.
  - change Producer.start with (Producer.thr Producer.opened).
    by rewrite <- Ht.
Qed.

Lemma queued_records_have_header_columns_witness :
  dom (point_record "1" "0.12") = list_to_set hey_header.
Proof.
  apply (proj1 queued_records_have_header_columns scenario hey_header
           (point_record "1" "0.12")).
  - vm_compute. reflexivity.
  - apply list_elem_of_here.
Defined.

(** ** The file tailer on complete lines *)

Section TailerRuns.

Import Producer.
Implicit Types (s : tailer) (q : list (gmap string string)).

Lemma readline_at_end (content : string) :
  readline content (byte_length content) = EmptyString.
Proof. unfold readline. by rewrite drop_bytes_all. Qed.

Lemma read_bytes_at_end (content : string) :
  read_bytes content (byte_length content) = 0.
Proof. unfold read_bytes. by rewrite drop_bytes_all. Qed.

Lemma not_nl (c : ascii) :
  Csv.is_nl c = false -> Ascii.eqb c Csv.LF = false /\ Ascii.eqb c Csv.CR = false.
Proof. unfold Csv.is_nl. by intros [-> ->]%orb_false_iff. Qed.

(** A line with no line break in it, followed by a line ending: the read
    returns the line with a line feed and takes the line and its ending
    from the file. After a lone CR the text must not go on with LF. *)
Lemma take_line_eol (l e rest : string) :
  no_nl l = true -> is_eol e ->
  (e = String Csv.CR EmptyString -> lf_first rest = false) ->
  take_line (l ++ e ++ rest) = l ++ nl
  /\ line_bytes (l ++ e ++ rest) = byte_length l + byte_length e.
Proof.
  intros Hl He Hrest. induction l as [|c l IH].
  - rewrite !str_nil. destruct He as [-> | [-> | ->]].
    + by rewrite str_cons, str_nil.
    + rewrite str_cons, str_nil. split; [done|]. simpl.
      specialize (Hrest eq_refl). destruct rest as [|d rest]; [done|].
      simpl in Hrest. by rewrite Hrest.
    + by rewrite !str_cons, str_nil.
  - simpl in Hl. apply andb_true_iff in Hl as [Hc%negb_true_iff Hl].
    destruct (not_nl c Hc) as [Hlf Hcr]. destruct (IH Hl) as [IH1 IH2].
    rewrite !str_cons. simpl. rewrite Hlf, Hcr. simpl.
    rewrite IH1, IH2. split; [done|lia].
Qed.

(** With the cursor after [pre], a read returns the next complete line. *)
Lemma readline_complete (pre l e rest : string) :
  no_nl l = true -> is_eol e ->
  (e = String Csv.CR EmptyString -> lf_first rest = false) ->
  readline (pre ++ l ++ e ++ rest) (byte_length pre) = l ++ nl
  /\ read_bytes (pre ++ l ++ e ++ rest) (byte_length pre)
     = byte_length l + byte_length e.
Proof.
  intros Hl He Hrest. unfold readline, read_bytes. rewrite drop_bytes_app.
  by apply take_line_eol.
Qed.

Lemma line_bytes_le (t : string) : line_bytes t <= byte_length t.
Proof.
  induction t as [|c t IH]; [done|]. simpl.
  destruct (Ascii.eqb c Csv.LF) eqn:Hlf.
  { apply Ascii.eqb_eq in Hlf as ->. simpl. lia. }
  destruct (Ascii.eqb c Csv.CR) eqn:Hcr; [|lia].
  apply Ascii.eqb_eq in Hcr as ->.
  change (width Csv.CR) with 1.
  destruct t as [|d t]; [lia|]. simpl. pose proof (width_pos d).
  destruct (Ascii.eqb d Csv.LF); lia.
Qed.

Lemma drop_bytes_length (t : string) : forall n,
  byte_length (drop_bytes n t) <= byte_length t - n.
Proof.
  induction t as [|c t IH]; intros n; [simpl; lia|].
  destruct n as [|n]; [simpl; lia|].
  simpl drop_bytes. specialize (IH (S n - width c)). simpl byte_length. lia.
Qed.

Lemma tail_file_app (c1 c2 : list string) s q :
  tail_file (c1 ++ c2) s q
  = tail_file c2 (tail_file c1 s q).1 (tail_file c1 s q).2.
Proof.
  revert s q. induction c1 as [|c c1 IH]; intros s q; simpl; [done|].
  destruct (tail_iter c s q) as [s' q']. apply IH.
Qed.

Lemma tail_file_dead (contents : list string) s q :
  alive (thr s) = false -> tail_file contents s q = (s, q).
Proof.
  intros Ha. induction contents as [|c contents IH]; simpl; [done|].
  by rewrite tail_iter_dead.
Qed.

(** An iteration that reads a non-empty line. *)
Lemma tail_iter_line content s q line n :
  alive (thr s) = true -> readline content (pos s) = line ->
  read_bytes content (pos s) = n ->
  line <> EmptyString ->
  tail_iter content s q
  = ({| thr := (body line (thr s) q).1;
        pos := pos s + n;
        loop := loop s; sleeps := sleeps s |},
     (body line (thr s) q).2).
Proof.
  intros Ha Hl Hn Hne. unfold tail_iter. rewrite Ha, Hl, Hn. simpl.
  apply is_empty_false in Hne. rewrite Hne.
  by destruct (body line (thr s) q).
Qed.

Lemma nl_line_nonempty (l : string) : l ++ nl <> EmptyString.
Proof. destruct l; [rewrite str_nil|rewrite str_cons]; discriminate. Qed.

(** In a file whose lines end with a lone CR, no line starts with LF. *)
Lemma file_with_cr (ls : list string) :
  forallb no_nl ls = true ->
  lf_first (file_with (String Csv.CR EmptyString) ls) = false.
Proof.
  destruct ls as [|l ls]; [done|]. simpl.
  intros [Hl _]%andb_true_iff. destruct l as [|c l].
  - by rewrite str_nil, str_cons.
  - rewrite str_cons. simpl in *.
    apply andb_true_iff in Hl as [Hc%negb_true_iff _].
    by destruct (not_nl c Hc).
Qed.

(** Replaying a file of complete lines, one iteration per line. *)
Lemma replay_lines (e : string) (ls : list string) : forall (pre : string) s q,
  is_eol e ->
  pos s = byte_length pre -> loop s = Replaying ->
  forallb no_nl ls = true ->
  let r := tail_file (replicate (length ls) (pre ++ file_with e ls)) s q in
  (thr r.1, r.2) = stdin_loop (map (fun l => l ++ nl) ls) (thr s) q
  /\ (alive (thr r.1) = true ->
      pos r.1 = byte_length (pre ++ file_with e ls)
      /\ loop r.1 = Replaying /\ sleeps r.1 = sleeps s).
Proof.
  induction ls as [|l ls IH]; intros pre s q He Hpos Hloop Hls.
  - simpl. split; [done|]. intros _.
    by rewrite str_app_nil_r.
  - simpl in Hls. apply andb_true_iff in Hls as [Hl Hls].
    simpl replicate. simpl map. simpl file_with.
    destruct (alive (thr s)) eqn:Ha.
    + simpl tail_file.
      destruct (readline_complete pre l e (file_with e ls) Hl He) as [Hrd Hn].
      { intros ->. by apply file_with_cr. }
      rewrite (tail_iter_line _ s q (l ++ nl) (byte_length l + byte_length e));
        [|done| | |apply nl_line_nonempty].
      2: { by rewrite Hpos. }
      2: { by rewrite Hpos. }
      simpl stdin_loop. rewrite Ha.
      set (s1 := {| thr := (body (l ++ nl) (thr s) q).1;
                    pos := pos s + (byte_length l + byte_length e);
                    loop := loop s; sleeps := sleeps s |}).
      replace (pre ++ l ++ e ++ file_with e ls)
        with ((pre ++ l ++ e) ++ file_with e ls).
      2: { by rewrite !str_app_assoc. }
      destruct (IH (pre ++ l ++ e) s1 (body (l ++ nl) (thr s) q).2)
        as [Hrun Hend]; [done| | done | done |].
      { simpl. rewrite Hpos, !byte_length_app. lia. }
      split.
      * rewrite Hrun. simpl. by destruct (body (l ++ nl) (thr s) q).
      * exact Hend.
    + rewrite tail_file_dead by done. simpl. rewrite Ha.
      split; [done|]. intros Hc. congruence.
Qed.

(** Iterations at the end of the file: the first leaves the replay loop,
    each further one sleeps. *)
Lemma idle_iters (k : nat) : forall content s q,
  alive (thr s) = true -> pos s = byte_length content ->
  loop s = Following ->
  tail_file (replicate k content) s q
  = ({| thr := thr s; pos := pos s; loop := Following;
        sleeps := k + sleeps s |}, q).
Proof.
  induction k as [|k IH]; intros content s q Ha Hpos Hloop; simpl.
  - by destruct s; simpl in *; subst.
  - unfold tail_iter. rewrite Ha, Hpos, readline_at_end, Hloop. simpl.
    rewrite IH by done. simpl. do 2 f_equal. lia.
Qed.

End TailerRuns.

(** X6. Tailing a file that holds complete lines, all ended by LF, all by
    CR LF or all by CR, and that is not being written, queues the very
    records that streaming the same lines from standard input queues,
    with the same header; the tailer then stays in the following loop at
    the end of the file, sleeping once per further iteration. *)
Theorem tail_of_static_file_is_stream (e : string) (ls : list string)
    (k : nat) (q : list (gmap string string)) :
  is_eol e -> forallb no_nl ls = true ->
  let r := Producer.tail_file
             (replicate (length ls + S k) (file_with e ls)) Producer.opened q in
  (Producer.thr r.1, r.2)
  = Producer.stream_lines_from_stdin (map (fun l => l ++ nl) ls) q
  /\ (Producer.alive (Producer.thr r.1) = true ->
      Producer.pos r.1 = Producer.byte_length (file_with e ls)
      /\ Producer.loop r.1 = Producer.Following
      /\ Producer.sleeps r.1 = k).
Proof.
  intros He Hls r. subst r. rewrite replicate_add, tail_file_app.
  destruct (replay_lines e ls EmptyString Producer.opened q He eq_refl eq_refl
              Hls) as [Hrun Hend].
  rewrite !str_nil in Hrun, Hend. simpl in Hrun, Hend.
  destruct (Producer.tail_file (replicate (length ls) (file_with e ls))
              Producer.opened q) as [s1 q1]. simpl in *.
  destruct (Producer.alive (Producer.thr s1)) eqn:Ha.
  - destruct (Hend eq_refl) as (Hpos & Hloop & Hsl).
    simpl. unfold Producer.tail_iter.
    rewrite Ha, Hpos, readline_at_end, read_bytes_at_end, Hloop.
    simpl.
    rewrite idle_iters with (content := file_with e ls); [|done|simpl; lia|done].
    simpl. split; [done|]. intros _.
    repeat split; lia.
  - rewrite tail_iter_dead, tail_file_dead by done.
    split; [done|]. simpl. congruence.
Qed.

Lemma tail_of_static_file_is_stream_witness :
  let crlf := String Csv.CR (String Csv.LF EmptyString) in
  let r := Producer.tail_file
             (replicate 5 (file_with crlf ["a,b"; "1,2"; ""; "3,4,5"]))
             Producer.opened [] in
  (Producer.thr r.1, r.2)
  = Producer.stream_lines_from_stdin
      ["a,b" ++ nl; "1,2" ++ nl; nl; "3,4,5" ++ nl] [].
Proof.
  refine (proj1 (tail_of_static_file_is_stream
                   (String Csv.CR (String Csv.LF EmptyString))
                   ["a,b"; "1,2"; ""; "3,4,5"] 0 [] _ _)).
  - right. by right.
  - reflexivity.
Defined.

(** X7. A complete line appended to the file while the tailer waits at its
    end (a line with no line break in it, followed by LF, CR LF or CR) is
    read whole by the next iteration and handled as a line of the stream
    is, with LF for its ending; the cursor moves to the new end of the
    file, and the iteration does not sleep. *)
Theorem tail_observes_append (content l e : string) (s : Producer.tailer)
    (q : list (gmap string string)) :
  Producer.alive (Producer.thr s) = true ->
  Producer.pos s = Producer.byte_length content ->
  no_nl l = true -> is_eol e ->
  let r := Producer.tail_iter (content ++ l ++ e) s q in
  (Producer.thr r.1, r.2) = Producer.body (l ++ nl) (Producer.thr s) q
  /\ Producer.pos r.1 = Producer.byte_length (content ++ l ++ e)
  /\ Producer.loop r.1 = Producer.loop s
  /\ Producer.sleeps r.1 = Producer.sleeps s.
Proof.
  intros Ha Hpos Hl He r. subst r.
  destruct (readline_complete content l e EmptyString Hl He) as [Hrd Hn];
    [done|].
  rewrite str_app_nil_r in Hrd, Hn.
  rewrite (tail_iter_line _ s q (l ++ nl)
             (Producer.byte_length l + Producer.byte_length e));
    [|done| | |apply nl_line_nonempty].
  2: { by rewrite Hpos. }
  2: { by rewrite Hpos. }
  simpl. repeat split.
  - by destruct (Producer.body (l ++ nl) (Producer.thr s) q).
  - rewrite Hpos, !byte_length_app. lia.
Qed.

Lemma tail_observes_append_witness :
  Producer.pos
    (Producer.tail_iter
       (("a,b" ++ nl) ++ "1,2" ++ String Csv.CR (String Csv.LF EmptyString))
       following_ab []).1
  = Producer.byte_length
      (("a,b" ++ nl) ++ "1,2" ++ String Csv.CR (String Csv.LF EmptyString)).
Proof.
  refine (proj1 (proj2 (tail_observes_append ("a,b" ++ nl) "1,2"
                          (String Csv.CR (String Csv.LF EmptyString))
                          following_ab [] _ _ _ _))).
  - reflexivity.
  - reflexivity.
  - reflexivity.
  - right. by right.
Defined.

(** X8. The cursor never moves backwards and never passes the end of the
    file it reads. *)
Theorem cursor_within_file (content : string) (s : Producer.tailer)
    (q : list (gmap string string)) :
  Producer.pos s <= Producer.byte_length content ->
  Producer.pos s <= Producer.pos (Producer.tail_iter content s q).1
  /\ Producer.pos (Producer.tail_iter content s q).1
     <= Producer.byte_length content.
Proof.
  intros Hpos. unfold Producer.tail_iter.
  pose proof (line_bytes_le (Producer.drop_bytes (Producer.pos s) content))
    as Hlen.
  pose proof (drop_bytes_length content (Producer.pos s)) as Hdrop.
  fold (Producer.read_bytes content (Producer.pos s)) in Hlen.
  destruct (negb _); [simpl; lia|].
  destruct (PyStr.is_empty _).
  - destruct (Producer.loop s); simpl; lia.
  - destruct (Producer.body _ _ _). simpl. lia.
Qed.

Lemma cursor_within_file_witness :
  Producer.pos (Producer.tail_iter ("a,b" ++ nl ++ "1,2") following_ab []).1
  <= Producer.byte_length ("a,b" ++ nl ++ "1,2").
Proof.
  refine (proj2 (cursor_within_file ("a,b" ++ nl ++ "1,2") following_ab [] _)).
  vm_compute. lia.
Defined.

(** ** The render callback: what a tick does to the buffers and the surface *)

(** X9. A tick only appends: the buffers afterwards are the buffers before
    followed by the points of the queued records that pass the numeric
    test, in queue order and at most one per record: the floats of the X
    and of the Y column and the status, of each record for which both
    conversions succeed. The queue is left empty, and buffers of equal
    length stay of equal length, so that position [i] of the three refers
    to one point. *)
Theorem update_appends_in_parallel (a : Render.args)
    (q : list (gmap string string)) (b : Render.buffers) :
  let r := Render.update a q b in
  let pts := omap (point_of a) q in
  r.1.2 = []
  /\ Render.xs r.1.1 = (Render.xs b ++ map px pts)%list
  /\ Render.ys r.1.1 = (Render.ys b ++ map py pts)%list
  /\ Render.status_codes r.1.1 = (Render.status_codes b ++ map psc pts)%list
  /\ (length pts <= length q)%nat
  /\ (forall xf yf sc,
        (xf, yf, sc) ∈ pts
        <-> exists rec, rec ∈ q
              /\ Render.try_float (rec !! Render.x a) = Some xf
              /\ Render.try_float (rec !! Render.y a) = Some yf
              /\ rec !! "status-code" = sc)
  /\ (length (Render.ys b) = length (Render.xs b) ->
      length (Render.status_codes b) = length (Render.xs b) ->
      length (Render.ys r.1.1) = length (Render.xs r.1.1)
      /\ length (Render.status_codes r.1.1) = length (Render.xs r.1.1)).
Proof.
  intros r pts. subst r. rewrite update_points. fold pts. simpl.
  split; [done|]. split; [done|]. split; [done|]. split; [done|].
  split; [|split].
  - subst pts. clear. induction q as [|rec q IH]; [simpl; lia|].
    change (omap (point_of a) (rec :: q))
      with (match point_of a rec with
            | Some p => p :: omap (point_of a) q
            | None => omap (point_of a) q
            end).
    destruct (point_of a rec); simpl length; lia.
  - intros xf yf sc. subst pts. rewrite list_elem_of_omap. split.
    + intros (rec & Hin & Hp). exists rec. split; [done|].
      unfold point_of in Hp.
      destruct (Render.try_float (rec !! Render.x a)); [|done].
      destruct (Render.try_float (rec !! Render.y a)); [|done].
      by injection Hp as -> -> ->.
    + intros (rec & Hin & Hx & Hy & Hsc). exists rec. split; [done|].
      unfold point_of. by rewrite Hx, Hy, Hsc.
  - intros Hy Hs. rewrite !length_app, !length_map. lia.
Qed.

Lemma update_appends_in_parallel_witness :
  length (Render.ys (Render.update Render.default_args
                       [point_record "1" "0.5"; point_record "x" "2"]
                       Render.empty).1.1)
  = length (Render.xs (Render.update Render.default_args
                         [point_record "1" "0.5"; point_record "x" "2"]
                         Render.empty).1.1).
Proof.
  refine (proj1 (proj2 (proj2 (proj2 (proj2 (proj2 (proj2
            (update_appends_in_parallel Render.default_args
               [point_record "1" "0.5"; point_record "x" "2"]
               Render.empty)))))) _ _)).
  - reflexivity.
  - reflexivity.
Defined.

(** X10. A tick that admitted a point calls [set_data] with the whole
    buffers, then [set_xlim], [set_ylim] and [set_title], in this order;
    the title shows the status of the point admitted last (the text
    [None] when its record has no status column). A bound that is NaN or
    infinite makes [set_xlim], or else [set_ylim], raise [ValueError]: the
    tick ends there and the later calls are not made. *)
Theorem redraw_after_admission (a : Render.args)
    (q : list (gmap string string)) (b : Render.buffers) :
  (Render.drain a q b false).2 = true ->
  let b' := (Render.update a q b).1.1 in
  let cs := (Render.update a q b).2 in
  exists p x0 xr y0 yr,
    last (omap (point_of a) q) = Some p
    /\ Render.xs b' = x0 :: xr /\ Render.ys b' = y0 :: yr
    /\ let xlim := Render.x_bounds x0 xr in
       let ylim := Render.y_bounds y0 yr in
       (Render.accepted xlim = true -> Render.accepted ylim = true ->
          cs = [Render.set_data (Render.xs b') (Render.ys b');
                Render.set_xlim xlim.1 xlim.2; Render.set_ylim ylim.1 ylim.2;
                Render.set_title (Render.title_of (psc p))])
       /\ (Render.accepted xlim = false ->
             cs = [Render.set_data (Render.xs b') (Render.ys b');
                   Render.ValueError])
       /\ (Render.accepted xlim = true -> Render.accepted ylim = false ->
             cs = [Render.set_data (Render.xs b') (Render.ys b');
                   Render.set_xlim xlim.1 xlim.2; Render.ValueError]).
Proof.
  intros Hadm b' cs. subst cs. rewrite (update_redraws a q b Hadm). fold b'.
  destruct (admitted_cons a q b Hadm) as (x0 & xr & y0 & yr & Hx & Hy).
  fold b' in Hx, Hy.
  assert (exists p, last (omap (point_of a) q) = Some p
                    /\ last (Render.status_codes b') = Some (psc p))
    as (p & Hp & Hlast).
  { subst b'. rewrite update_points in *. rewrite drain_points in Hadm.
    simpl in *. rewrite orb_false_r in Hadm.
    destruct (last (omap (point_of a) q)) as [p|] eqn:Hl.
    - exists p. split; [done|]. apply last_Some in Hl as [pts ->].
      rewrite map_app, app_assoc. simpl. apply last_snoc.
    - apply last_None in Hl. by rewrite Hl in Hadm. }
  exists p, x0, xr, y0, yr. split; [done|]. split; [done|]. split; [done|].
  rewrite (redraw_cases b' x0 xr y0 yr Hx Hy).
  unfold Render.title. rewrite Hlast. cbv zeta.
  split; [|split].
  - by intros -> ->.
  - by intros ->.
  - by intros -> ->.
Qed.

Lemma redraw_after_admission_witness :
  exists lo hi lo' hi',
    (Render.update Render.default_args [point_record "1" "0.5"] Render.empty).2
    = [Render.set_data [PyFloat.literal "1"] [PyFloat.literal "0.5"];
       Render.set_xlim lo hi; Render.set_ylim lo' hi';
       Render.set_title (Render.title_of (Some "200"))].
Proof.
  destruct (redraw_after_admission Render.default_args
              [point_record "1" "0.5"] Render.empty)
    as (p & x0 & xr & y0 & yr & Hp & Hx & Hy & Hcs & _).
  - vm_compute. reflexivity.
  - vm_compute in Hp. injection Hp as <-.
    vm_compute in Hx. injection Hx as <- <-.
    vm_compute in Hy. injection Hy as <- <-.
    eexists _, _, _, _. apply Hcs; vm_compute; reflexivity.
Defined.

(** X11. The bounds a tick sets are never inverted, whatever the buffers
    hold, NaN included: with two or more points, when [set_xlim] sets
    bounds the upper one is not below the lower one, and it does set the
    minimum and the maximum when both are finite; when the y-values are
    not all equal and [set_ylim] sets bounds, the upper one is not below
    the lower one. *)
Theorem window_never_inverted (b : Render.buffers)
    (x0 x1 : PyFloat.float) (xr : list PyFloat.float)
    (y0 : PyFloat.float) (yr : list PyFloat.float) :
  Render.xs b = x0 :: x1 :: xr -> Render.ys b = y0 :: yr ->
  let xmin := Render.min_from x0 (x1 :: xr) in
  let xmax := Render.max_from x0 (x1 :: xr) in
  (forall lo hi, Render.xlim_of (Render.redraw b) = Some (lo, hi) ->
     PyFloat.ltb hi lo = false)
  /\ (PyFloat.is_finite xmin = true -> PyFloat.is_finite xmax = true ->
      Render.xlim_of (Render.redraw b) = Some (xmin, xmax))
  /\ (PyFloat.eqb (Render.min_from y0 yr) (Render.max_from y0 yr) = false ->
      forall lo hi, Render.ylim_of (Render.redraw b) = Some (lo, hi) ->
        PyFloat.ltb hi lo = false).
Proof.
  intros Hx Hy xmin xmax.
  rewrite (redraw_xlim b x0 (x1 :: xr) y0 yr Hx Hy).
  rewrite (redraw_ylim b x0 (x1 :: xr) y0 yr Hx Hy).
  rewrite x_bounds_many. fold xmin xmax.
  split; [|split].
  - intros lo hi Hlim.
    destruct (Render.accepted (xmin, xmax)); [|done].
    injection Hlim as <- <-.
    destruct (min_from_least x0 (x1 :: xr)) as [_ Hleast].
    destruct (max_from_greatest x0 (x1 :: xr)) as [Hmax _].
    by apply Hleast.
  - intros Hf1 Hf2. by rewrite accepted_pair.
  - intros Hne lo hi Hlim. unfold Render.y_bounds in Hlim.
    rewrite Hne in Hlim.
    destruct (_ && _); [|done]. injection Hlim as <- <-.
    destruct (min_from_least y0 yr) as [_ Hleast].
    destruct (max_from_greatest y0 yr) as [Hmax _].
    by apply Hleast.
Qed.

Lemma window_never_inverted_witness :
  let b := {| Render.xs := map PyFloat.literal ["2"; "nan"; "1"];
              Render.ys := map PyFloat.literal ["1"; "1"; "1"];
              Render.status_codes := [None; None; None] |} in
  Render.xlim_of (Render.redraw b)
  = Some (PyFloat.literal "1", PyFloat.literal "2")
  /\ PyFloat.ltb (PyFloat.literal "2") (PyFloat.literal "1") = false.
Proof.
  intros b.
  pose proof (window_never_inverted b (PyFloat.literal "2")
                (PyFloat.literal "nan") [PyFloat.literal "1"]
                (PyFloat.literal "1") (map PyFloat.literal ["1"; "1"])
                eq_refl eq_refl) as (Hle & Hset & _).
  assert (Render.xlim_of (Render.redraw b)
          = Some (PyFloat.literal "1", PyFloat.literal "2")) as Hlim.
  { apply Hset; vm_compute; reflexivity. }
  split; [exact Hlim|]. by apply Hle.
Defined.

(** X12. The status column never decides admission nor the point: when
    neither axis column is the status column, setting, changing or
    removing [status-code] in a record changes neither whether its point
    is admitted nor the x and y values appended. *)
Theorem status_never_blocks (a : Render.args) (rec : gmap string string)
    (b : Render.buffers) (v : string) :
  Render.x a <> "status-code" -> Render.y a <> "status-code" ->
  forall rec',
    rec' = <["status-code" := v]> rec \/ rec' = delete "status-code" rec ->
    (Render.drain_one a rec' b).2 = (Render.drain_one a rec b).2
    /\ Render.xs (Render.drain_one a rec' b).1
       = Render.xs (Render.drain_one a rec b).1
    /\ Render.ys (Render.drain_one a rec' b).1
       = Render.ys (Render.drain_one a rec b).1.
Proof.
  intros Hx Hy rec' Hrec. unfold Render.drain_one.
  assert (rec' !! Render.x a = rec !! Render.x a
          /\ rec' !! Render.y a = rec !! Render.y a) as [-> ->].
  { destruct Hrec as [-> | ->].
    - by rewrite !lookup_insert_ne.
    - by rewrite !lookup_delete_ne. }
  destruct (Render.try_float (rec !! Render.x a)); [|done].
  by destruct (Render.try_float (rec !! Render.y a)).
Qed.

Lemma status_never_blocks_witness :
  (Render.drain_one Render.default_args
     (delete "status-code" (point_record "1" "0.5")) Render.empty).2
  = (Render.drain_one Render.default_args (point_record "1" "0.5")
       Render.empty).2.
Proof.
  refine (proj1 (status_never_blocks Render.default_args
                   (point_record "1" "0.5") Render.empty "x" _ _ _ _)).
  - discriminate.
  - discriminate.
  - by right.
Defined.

(** ** The x range of a single point *)

Section SinglePoint.

Local Open Scope Z_scope.

(** [binary_normalize] of an integer [n] at exponent [ez], for a value
    below 2^k: the result is within 2^(k-54) of the value. *)
Lemma binary_normalize_spec_at k n ez :
  -1075 <= ez -> -1021 <= k <= 1023 ->
  Z.abs n * 2 ^ (ez + 1075) < 2 ^ (k + 1075) ->
  let r := binary_normalize 53 1024 n ez false in
  fin r = true /\ valid_binary 53 1024 r = true
  /\ - 2 ^ (k + 1022) <= 2 * (Zval r - n * 2 ^ (ez + 1075)) <= 2 ^ (k + 1022).
Proof.
  intros Hez Hk Hb.
  assert (forall s p, Zpos p * 2 ^ (ez + 1075) < 2 ^ (k + 1075) ->
            let r := binary_round 53 1024 s p ez in
            fin r = true /\ valid_binary 53 1024 r = true
            /\ - 2 ^ (k + 1022)
               <= 2 * (Zval r - cond_Zopp s (Zpos p) * 2 ^ (ez + 1075))
               <= 2 ^ (k + 1022)) as Hround.
  { intros s p Hp.
    pose proof (digits2_pos_bounds p) as [Hlo _].
    set (d := Zpos (digits2_pos p)) in *.
    assert (d + ez <= k) as Hd.
    { assert (2 ^ (d - 1) * 2 ^ (ez + 1075) < 2 ^ (k + 1075)) as Hlt.
      { assert (0 < 2 ^ (ez + 1075)) by (apply Z.pow_pos_nonneg; lia). nia. }
      rewrite <- Z.pow_add_r in Hlt by lia.
      apply Z.pow_lt_mono_r_iff in Hlt; lia. }
    destruct (binary_round_spec s p ez) as (Hfin & Hval & V & HV & HV0 & Herr);
      [lia | fold d; rewrite fexp_eq; lia |].
    fold d in Herr. rewrite fexp_eq in Herr.
    split; [done|]. split; [done|]. rewrite HV.
    assert (2 ^ (Z.max (d + ez - 53) (-1074) + 1075) <= 2 ^ (k + 1022)) as Hpow.
    { apply Z.pow_le_mono_r; lia. }
    destruct s; simpl in *; lia. }
  destruct n as [|p|p]; simpl binary_normalize.
  - simpl. split; [done|]. split; [done|].
    assert (0 < 2 ^ (k + 1022)) by (apply Z.pow_pos_nonneg; lia). lia.
  - apply (Hround false p). simpl in Hb. lia.
  - apply (Hround true p). simpl in Hb. lia.
Qed.

(** Adding 1e-6 to a valid float below 2^34 in magnitude gives a larger
    float. *)
Lemma x_widening_positive v :
  valid_binary 53 1024 v = true -> small_x v ->
  fin (SFadd 53 1024 v Render.c_1e_6) = true
  /\ SFltb v (SFadd 53 1024 v Render.c_1e_6) = true.
Proof.
  intros Hv Hm. destruct v as [s|s| |s m e]; try done.
  simpl in Hm. pose proof (bounded_inv m e Hv) as (He & Hm53 & _).
  split; [|apply SFltb_Zval; [done| | done | |]].
  all: unfold SFadd, Render.c_1e_6.
  all: set (ez := Z.min e (-72)).
  all: rewrite (shl_align_val m e ez), (shl_align_val _ (-72) ez) by lia.
  all: simpl (cond_Zopp false _).
  all: set (A := cond_Zopp s (Zpos m * 2 ^ (e - ez))).
  all: set (B := 4722366482869645 * 2 ^ (-72 - ez)).
  all: set (P := 2 ^ (ez + 1075)).
  all: assert (0 < P) as HP by (apply Z.pow_pos_nonneg; lia).
  all: assert (B * P = 4722366482869645 * 2 ^ 1003) as HB
    by (unfold B, P; rewrite <- Z.mul_assoc, <- Z.pow_add_r by lia;
        do 2 f_equal; lia).
  all: assert (A * P = cond_Zopp s (Zpos m * 2 ^ (e + 1075))) as HA
    by (assert (Zpos m * 2 ^ (e - ez) * P = Zpos m * 2 ^ (e + 1075))
          by (unfold P; rewrite <- Z.mul_assoc, <- Z.pow_add_r by lia;
              do 2 f_equal; lia);
        unfold A; destruct s; simpl; lia).
  all: assert (Z.abs (A * P) <= 2 ^ 1109 - 2 ^ 1056) as HAb
    by (rewrite HA;
        assert (Zpos m * 2 ^ (e + 1075) <= (2 ^ 53 - 1) * 2 ^ 1056)
          by (assert (2 ^ (e + 1075) <= 2 ^ 1056)
                by (apply Z.pow_le_mono_r; lia);
              assert (0 < 2 ^ (e + 1075)) by (apply Z.pow_pos_nonneg; lia);
              apply Z.mul_le_mono_nonneg; lia);
        change ((2 ^ 53 - 1) * 2 ^ 1056) with (2 ^ 1109 - 2 ^ 1056) in *;
        destruct s; simpl; lia).
  all: destruct (binary_normalize_spec_at 34 (A + B) ez) as (Hf & Hvr & Her);
    [lia | lia
    | fold P; replace (Z.abs (A + B) * P) with (Z.abs ((A + B) * P))
        by (rewrite Z.abs_mul, (Z.abs_eq P); lia);
      rewrite Z.mul_add_distr_r, HB; change (2 ^ (34 + 1075)) with (2 ^ 1109);
      lia
    | ].
  - exact Hf.
  - exact Hf.
  - exact Hvr.
  - fold P in Her. rewrite Z.mul_add_distr_r, HB in Her.
    change (2 ^ (34 + 1022)) with (2 ^ 1056) in Her.
    simpl Zval at 1. rewrite <- HA. lia.
Qed.

End SinglePoint.

(** X13. After a tick that leaves a single point in the buffer, the x
    bounds are its x value and that value plus 1e-6: a range of positive
    width whenever the value is below 2^34 in magnitude. *)
Theorem single_point_x_range (a : Render.args)
    (q : list (gmap string string)) (b : Render.buffers) (v : PyFloat.float) :
  (Render.drain a q b false).2 = true ->
  Render.xs (Render.update a q b).1.1 = [v] ->
  valid_binary PyFloat.prec PyFloat.emax v = true -> small_x v ->
  Render.xlim_of (Render.update a q b).2
  = Some (v, PyFloat.add v Render.c_1e_6)
  /\ PyFloat.ltb v (PyFloat.add v Render.c_1e_6) = true.
Proof.
  intros Hadm Hx Hval Hsmall. rewrite (update_redraws a q b Hadm).
  destruct (admitted_cons a q b Hadm) as (x0 & xr & y0 & yr & Hx' & Hy).
  rewrite (redraw_xlim _ x0 xr y0 yr Hx' Hy).
  rewrite Hx in Hx'. injection Hx' as <- <-.
  destruct (x_widening_positive v Hval Hsmall) as [Hfin Hlt].
  split; [|done].
  rewrite x_bounds_single, accepted_pair; [done| |].
  - rewrite fin_is_finite. by destruct v.
  - by rewrite fin_is_finite.
Qed.

Lemma single_point_x_range_witness :
  PyFloat.ltb (PyFloat.literal "7")
    (PyFloat.add (PyFloat.literal "7") Render.c_1e_6) = true.
Proof.
  refine (proj2 (single_point_x_range Render.default_args
                   [point_record "7" "1"] Render.empty (PyFloat.literal "7")
                   _ _ _ _)).
  - vm_compute. reflexivity.
  - vm_compute. reflexivity.
  - vm_compute. reflexivity.
  - vm_compute. discriminate.
Defined.

(** ** The CSV reader on plain and on quoted fields *)

Section CsvFields.

Import Csv.

Lemma string_of_list_ascii_snoc (l : list ascii) (c : ascii) :
  string_of_list_ascii (l ++ [c])
  = string_of_list_ascii l ++ String c EmptyString.
Proof.
  induction l as [|x l IH]; [done|]. simpl. rewrite str_cons. by rewrite IH.
Qed.

Lemma string_of_rev_cons (c : ascii) (f : list ascii) :
  string_of_rev (c :: f) = string_of_rev f ++ String c EmptyString.
Proof. unfold string_of_rev. simpl. apply string_of_list_ascii_snoc. Qed.

(** On plain text the reader splits at the commas. *)
Lemma plain_process (s : string) : forall r,
  plain s = true ->
  state r = START_RECORD \/ in_row (state r) = true ->
  (field_len r + N.of_nat (String.length s) <= field_limit)%N ->
  exists r',
    process_line r s = Some r'
    /\ (s = EmptyString -> r' = r)
    /\ (s <> EmptyString -> in_row (state r') = true)
    /\ row_so_far r'
       = (fields r ++ glue (string_of_rev (field r)) (PyStr.split_comma s))%list.
Proof.
  induction s as [|c s IH]; intros r Hp Hst Hlen.
  - exists r. repeat split; try done. unfold row_so_far. simpl.
    by rewrite str_app_nil_r.
  - simpl in Hp. apply andb_true_iff in Hp as [Hc Hp].
    apply andb_true_iff in Hc as [Hq%negb_true_iff Hnl%negb_true_iff].
    simpl String.length in Hlen. simpl process_line.
    assert (process_char r c
            = if Ascii.eqb c PyStr.comma
              then Some (parse_save_field r START_FIELD)
              else parse_add_char r c IN_FIELD) as ->.
    { unfold process_char. rewrite Hnl, Hq.
      destruct Hst as [-> | Hst]; [done|].
      by destruct (state r). }
    simpl PyStr.split_comma.
    destruct (Ascii.eqb c PyStr.comma) eqn:Hk.
    + destruct (IH (parse_save_field r START_FIELD) Hp)
        as (r' & Hr' & Hemp & Hin & Hrow).
      { by right. }
      { simpl. lia. }
      exists r'. split; [done|]. split; [done|]. split.
      * intros _. destruct (decide (s = EmptyString)) as [He|Hne].
        -- by rewrite (Hemp He).
        -- by apply Hin.
      * rewrite Hrow. simpl. rewrite <- app_assoc. simpl.
        destruct (split_comma_cons s) as (t & ts & ->). simpl.
        by rewrite str_app_nil_r, str_nil.
    + unfold parse_add_char.
      destruct (N.leb_spec field_limit (field_len r)); [lia|].
      set (r1 := {| fields := fields r; field := c :: field r;
                    field_len := N.succ (field_len r); state := IN_FIELD |}).
      destruct (IH r1 Hp) as (r' & Hr' & Hemp & Hin & Hrow).
      { by right. }
      { simpl. lia. }
      exists r'. split; [done|]. split; [done|]. split.
      * intros _. destruct (decide (s = EmptyString)) as [He|Hne].
        -- by rewrite (Hemp He).
        -- by apply Hin.
      * rewrite Hrow. simpl. rewrite string_of_rev_cons.
        destruct (split_comma_cons s) as (t & ts & ->). simpl.
        by rewrite str_app_assoc, str_cons, str_nil.
Qed.

(** The row returned once the line has been fed. *)
Lemma read_row_end (line : string) (r : reader) :
  process_line init line = Some r -> in_row (state r) = true ->
  read_row line = Some (row_so_far r).
Proof.
  intros Hr Hst. unfold read_row. rewrite Hr. unfold process_eol, row_so_far.
  by destruct (state r).
Qed.

(** Inside quotes every character but the quote is taken as it is. *)
Lemma quoted_process (f : string) : forall r,
  no_quote f = true -> state r = IN_QUOTED_FIELD ->
  (field_len r + N.of_nat (String.length f) <= field_limit)%N ->
  exists r',
    process_line r f = Some r'
    /\ state r' = IN_QUOTED_FIELD /\ fields r' = fields r
    /\ string_of_rev (field r') = string_of_rev (field r) ++ f
    /\ (field_len r' <= field_limit)%N.
Proof.
  induction f as [|c f IH]; intros r Hf Hst Hlen.
  - exists r. repeat split; try done.
    + by rewrite str_app_nil_r.
    + simpl in Hlen. lia.
  - simpl in Hf. apply andb_true_iff in Hf as [Hq%negb_true_iff Hf].
    simpl String.length in Hlen. simpl process_line.
    unfold process_char. rewrite Hst, Hq. unfold parse_add_char.
    destruct (N.leb_spec field_limit (field_len r)); [lia|].
    set (r1 := {| fields := fields r; field := c :: field r;
                  field_len := N.succ (field_len r);
                  state := IN_QUOTED_FIELD |}).
    destruct (IH r1 Hf eq_refl) as (r' & Hr' & Hst' & Hfs & Hfd & Hl).
    { simpl. lia. }
    exists r'. repeat split; try done.
    rewrite Hfd. simpl. rewrite string_of_rev_cons.
    by rewrite str_app_assoc, str_cons, str_nil.
Qed.

Lemma process_line_app (a b : string) (r : reader) :
  process_line r (a ++ b)
  = match process_line r a with
    | Some r' => process_line r' b
    | None => None
    end.
Proof.
  revert r. induction a as [|c a IH]; intros r; [done|].
  rewrite str_cons. simpl. destruct (process_char r c); [apply IH|done].
Qed.

End CsvFields.

(** X14. On a line without quote characters the CSV reader and
    [split(",")] agree: the row is the list of tokens between the commas,
    as for the header line. *)
Theorem csv_plain_row_is_split (line : string) :
  line <> EmptyString -> plain line = true ->
  (N.of_nat (String.length line) <= Csv.field_limit)%N ->
  Csv.read_row line = Some (PyStr.split_comma line).
Proof.
  intros Hne Hp Hlen.
  destruct (plain_process line Csv.init Hp) as (r & Hr & _ & Hin & Hrow).
  { by left. }
  { simpl. lia. }
  rewrite (read_row_end line r Hr (Hin Hne)), Hrow. simpl.
  destruct (split_comma_cons line) as (t & ts & ->). simpl.
  by rewrite str_nil.
Qed.

Lemma csv_plain_row_is_split_witness :
  Csv.read_row "1, 0.12,,200" = Some ["1"; " 0.12"; ""; "200"].
Proof.
  refine (csv_plain_row_is_split "1, 0.12,,200" _ _ _).
  - discriminate.
  - reflexivity.
  - vm_compute. discriminate.
Defined.

(** X15. A field written between quotes is returned without the quotes
    and with its commas kept; the fields that follow it, when plain, are
    split at their commas. *)
Theorem csv_quoted_field (f rest : string) :
  let q := String Csv.quotechar EmptyString in
  no_quote f = true -> plain rest = true ->
  (N.of_nat (String.length f) <= Csv.field_limit)%N ->
  (N.of_nat (String.length rest) <= Csv.field_limit)%N ->
  Csv.read_row (q ++ f ++ q) = Some [f]
  /\ Csv.read_row (q ++ f ++ q ++ "," ++ rest)
     = Some (f :: PyStr.split_comma rest).
Proof.
  intros q Hf Hrest Hlf Hlr.
  set (r0 := Csv.set_state Csv.init Csv.IN_QUOTED_FIELD).
  destruct (quoted_process f r0 Hf eq_refl) as (r1 & Hr1 & Hst1 & Hfs1 & Hfd1 & Hl1).
  { simpl. lia. }
  assert (Csv.process_line Csv.init (q ++ f)
          = Some r1) as Hqf.
  { subst q. rewrite str_cons, str_nil. simpl. exact Hr1. }
  assert (Csv.process_char r1 Csv.quotechar
          = Some (Csv.set_state r1 Csv.QUOTE_IN_QUOTED_FIELD)) as Hclose.
  { unfold Csv.process_char. by rewrite Hst1. }
  split.
  - unfold Csv.read_row.
    replace (q ++ f ++ q) with ((q ++ f) ++ q) by apply str_app_assoc.
    rewrite process_line_app, Hqf. subst q. simpl. rewrite Hclose. simpl.
    rewrite Hfs1, Hfd1. simpl. by rewrite str_nil.
  - replace (q ++ f ++ q ++ "," ++ rest)
      with ((q ++ f) ++ (q ++ ",") ++ rest).
    2: { by rewrite !str_app_assoc. }
    set (r2 := Csv.parse_save_field
                 (Csv.set_state r1 Csv.QUOTE_IN_QUOTED_FIELD) Csv.START_FIELD).
    destruct (plain_process rest r2 Hrest) as (r3 & Hr3 & Hemp & Hin & Hrow).
    { by right. }
    { simpl. lia. }
    assert (Csv.process_line Csv.init ((q ++ f) ++ (q ++ ",") ++ rest)
            = Some r3) as Hall.
    { rewrite process_line_app, Hqf, process_line_app. subst q. simpl.
      rewrite Hclose. simpl. exact Hr3. }
    assert (in_row (Csv.state r3) = true) as Hst3.
    { destruct (decide (rest = EmptyString)) as [He|Hne].
      - by rewrite (Hemp He).
      - by apply Hin. }
    rewrite (read_row_end _ r3 Hall Hst3), Hrow. simpl.
    rewrite Hfs1, Hfd1. simpl. rewrite str_nil.
    destruct (split_comma_cons rest) as (t & ts & ->). simpl.
    by rewrite str_nil.
Qed.

Lemma csv_quoted_field_witness :
  let q := String Csv.quotechar EmptyString in
  Csv.read_row (q ++ "a,b" ++ q ++ "," ++ "c,d") = Some ["a,b"; "c"; "d"].
Proof.
  refine (proj2 (csv_quoted_field "a,b" "c,d" _ _ _ _)).
  - reflexivity.
  - reflexivity.
  - vm_compute. discriminate.
  - vm_compute. discriminate.
Defined.

(** ** A column that the header does not have *)

Lemma drain_missing_column (a : Render.args) (h : list string)
    (q : list (gmap string string)) :
  Render.x a ∉ h \/ Render.y a ∉ h ->
  Forall (fun rec : gmap string string => dom rec = list_to_set h) q ->
  omap (point_of a) q = [].
Proof.
  intros Hmiss. induction 1 as [|rec q Hrec _ IH]; [done|].
  change (omap (point_of a) (rec :: q))
    with (match point_of a rec with
          | Some p => p :: omap (point_of a) q
          | None => omap (point_of a) q
          end).
  assert (point_of a rec = None) as ->; [|done].
  apply point_of_None.
  assert (forall name, name ∉ h -> rec !! name = None) as Hnone.
  { intros name Hn. apply not_elem_of_dom. rewrite Hrec.
    by rewrite elem_of_list_to_set. }
  destruct Hmiss as [Hx|Hy]; [left|right].
  - by rewrite (Hnone _ Hx).
  - by rewrite (Hnone _ Hy).
Qed.

(** X16. When the header read by a producer lacks the X column or the Y
    column, no record it queued is ever plotted: a tick over any of them
    leaves the buffers as they were and makes no call on the surface. *)
Theorem missing_column_plots_nothing (a : Render.args)
    (t : Producer.thread) (queued : list (gmap string string))
    (h : list string) (q : list (gmap string string)) (b : Render.buffers) :
  (exists lines, (t, queued) = Producer.stream_lines_from_stdin lines [])
  \/ (exists contents,
        let r := Producer.tail_file contents Producer.opened [] in
        (t, queued) = (Producer.thr r.1, r.2)) ->
  Producer.header t = Some h ->
  Render.x a ∉ h \/ Render.y a ∉ h ->
  q ⊆ queued ->
  Render.update a q b = (b, [], []).
Proof.
  intros Hprod Hh Hmiss Hsub.
  assert (keyed t queued) as Hk.
  { destruct Hprod as [[lines Hp]|[contents Hp]].
    - pose proof (stdin_loop_keyed lines Producer.start [] eq_refl) as Hk.
      unfold Producer.stream_lines_from_stdin in Hp. by rewrite <- Hp in Hk.
    - simpl in Hp. rewrite tail_file_as_loop in Hp.
      pose proof (stdin_loop_keyed
                    (Producer.lines_read contents Producer.opened [])
                    Producer.start [] eq_refl) as Hk.
      change (Producer.thr Producer.opened) with Producer.start in Hp.
      by rewrite <- Hp in Hk. }
  unfold keyed in Hk. rewrite Hh in Hk.
  assert (Forall (fun rec : gmap string string => dom rec = list_to_set h) q)
    as Hq.
  { apply Forall_forall. intros rec Hin.
    apply (proj1 (Forall_forall _ _) Hk). by apply Hsub. }
  rewrite update_points, (drain_missing_column a h q Hmiss Hq). simpl.
  by rewrite extend_nil.
Qed.

Lemma missing_column_plots_nothing_witness :
  Render.update
    {| Render.file := None; Render.x := "offset"; Render.y := "latency";
       Render.interval := 200 |}
    (Producer.stream_lines_from_stdin scenario []).2 Render.empty
  = (Render.empty, [], []).
Proof.
  refine (missing_column_plots_nothing _
            (Producer.stream_lines_from_stdin scenario []).1
            (Producer.stream_lines_from_stdin scenario []).2
            hey_header _ _ _ _ _ _).
  - left. exists scenario. by destruct (Producer.stream_lines_from_stdin _ _).
  - vm_compute. reflexivity.
  - right. vm_compute. set_solver.
  - done.
Defined.

(** ** Start-up: which producer runs *)

(** X17. [main] does one of two things: it prints the explanation and
    returns with no thread started and no rendering, or it starts one
    producer thread and then sets up the plot and the animation with the
    interval asked for, printing nothing. With a non-empty [--file] it is
    the tailer of that path that is started, whatever standard input is;
    without one, the reader of standard input. *)
Theorem main_explains_or_starts (a : Render.args) (e : Main.env) :
  let o := Main.main a e in
  (Main.explained o = true /\ Main.started o = false
   /\ Main.rendering o = false
   /\ (Render.file a = None \/ Render.file a = Some EmptyString)
   /\ Main.stdin_is_none e || Main.stdin_is_original e && Main.stdin_isatty e
      = true)
  \/ (exists t,
        Main.trace o = [Main.thread_start t; Main.plot_setup;
                        Main.animation (Render.interval a)]
        /\ match Render.file a with
           | Some (String c p) => t = Main.tail_file (String c p)
           | _ => t = Main.stream_lines_from_stdin
                  /\ Main.stdin_is_none e = false
                  /\ (Main.stdin_is_original e = false
                      \/ Main.stdin_isatty e = false)
           end).
Proof.
  unfold Main.main.
  destruct (Render.file a) as [[|c p]|]; simpl.
  2: { right. by eexists. }
  all: destruct (Main.stdin_is_none e), (Main.stdin_is_original e),
         (Main.stdin_isatty e); simpl.
  all: first [ left; repeat split; auto; done
             | right; eexists; repeat split; auto; done ].
Qed.

(** ** Numbers written with leading spaces *)

Section LeadingSpace.

Import PyFloat.

Lemma c_space_facts (c : ascii) :
  is_c_space c = true ->
  to_ascii_char c = c /\ Ascii.eqb c underscore = false
  /\ is_digit c = false.
Proof.
  destruct c as [[] [] [] [] [] [] [] []]; try discriminate; done.
Qed.

Lemma drop_underscores_after_space (c : ascii) (t : string) :
  Ascii.eqb c underscore = false -> is_digit c = false ->
  drop_underscores (Some c) t = drop_underscores None t.
Proof.
  intros Hu Hd. destruct t as [|d t]; simpl; rewrite ?Hu, ?Hd; [done|].
  by destruct (Ascii.eqb d underscore).
Qed.

Lemma of_string_leading_space (c : ascii) (v : string) :
  is_c_space c = true -> of_string (String c v) = of_string v.
Proof.
  intros Hc. destruct (c_space_facts c Hc) as (Ht & Hu & Hd).
  unfold of_string. simpl transform. rewrite Ht. simpl has_underscore.
  rewrite Hu. simpl orb.
  destruct (has_underscore (transform v)).
  - simpl drop_underscores. rewrite Hu.
    rewrite (drop_underscores_after_space c _ Hu Hd).
    destruct (drop_underscores None (transform v)) as [u|]; [|done].
    simpl lstrip_c. by rewrite Hc.
  - simpl lstrip_c. by rewrite Hc.
Qed.

End LeadingSpace.

(** X18. Spaces before a number do not matter to the numeric test: a
    field such as [ 0.12], which the CSV reader returns with its leading
    space, converts to the same float as [0.12], and a field that is not
    a number stays rejected. *)
Theorem leading_spaces_ignored (sp v : string) :
  spaces sp = true ->
  Render.try_float (Some (sp ++ v)) = Render.try_float (Some v).
Proof.
  intros Hsp. simpl. induction sp as [|c sp IH]; [by rewrite str_nil|].
  simpl in Hsp. apply andb_true_iff in Hsp as [Hc Hsp].
  rewrite str_cons, of_string_leading_space by done. by apply IH.
Qed.

Lemma leading_spaces_ignored_witness :
  Render.try_float (Some ("  " ++ "0.12")) = Render.try_float (Some "0.12").
Proof.
  apply (leading_spaces_ignored "  " "0.12"). reflexivity.
Defined.
